(** * The Button Game: spawn / lifetime / scoring control loop

    A shallow embedding of [box.py], [box_spawner.py] and [main.py], and the
    properties of the control loop proved (or refuted) on it.

    Conventions of the embedding.
    - Python [int] is [Z].
    - Python [float] is a type [F] with the operations the sources use on it
      (class [PyFloat]).  Two instances are given: [binary64], the IEEE-754
      double arithmetic CPython runs (Rocq's primitive floats), and [exact],
      rational arithmetic without rounding.  Every function of the sources is
      written once, for any [F].  Facts that only depend on control flow are
      proved for every [F]; concrete numeric facts are evaluated in
      [binary64]; facts that quantify over all timestamps or all random draws
      are proved in [exact] and, with the enclosure lemmas of the section on
      rounding, in [binary64].
    - [pygame.time.get_ticks()] and [pygame.mouse.get_pos()] read the
      environment: the functions that call them take the reading as the
      arguments [now] and [mouse].
    - [random.random()] advances a generator: functions that draw are written
      in the state monad [Rand].
    - The calls on the display, its clock and the standard output are
      recorded, in order, as a list of [Effect]s (module [output]).
    - [settings.py] is not part of the sources at hand: the constants imported
      from it are parameters. *)

From Stdlib Require Import ZArith QArith Qround Qpower Bool List Lia Lqa.
From Stdlib Require Import Floats.
From Stdlib Require String DecimalString.
Import ListNotations.
Import String.StringSyntax.
Delimit Scope string_scope with string.

Set Implicit Arguments.
Set Warnings "-inexact-float".

(* ================================================================= *)
(** ** Python floats *)

Declare Scope py_scope.
Delimit Scope py_scope with py.

Class PyFloat (F : Type) : Type := {
  (** the float denoted by a decimal literal of the source text *)
  lit : Q -> F;
  (** an [int] operand promoted to [float] in a mixed expression *)
  of_int : Z -> F;
  fadd : F -> F -> F;
  fsub : F -> F -> F;
  fmul : F -> F -> F;
  (** [x < y] and [x <= y] *)
  fltb : F -> F -> bool;
  fleb : F -> F -> bool;
  (** [int(x)]: truncation toward zero *)
  to_int : F -> Z
}.

Infix "+" := fadd : py_scope.
Infix "-" := fsub : py_scope.
Infix "*" := fmul : py_scope.
Infix "<?" := fltb : py_scope.
Infix "<=?" := fleb : py_scope.

(** Exact rational arithmetic. *)
Module Exact.

Definition ltb (x y : Q) : bool := negb (Qle_bool y x).

Definition trunc (x : Q) : Z := Z.quot (Qnum x) (Z.pos (Qden x)).

#[export] Instance exact : PyFloat Q := {
  lit := fun q => q;
  of_int := inject_Z;
  fadd := Qplus;
  fsub := Qminus;
  fmul := Qmult;
  fltb := ltb;
  fleb := Qle_bool;
  to_int := trunc
}.

End Exact.

(** IEEE-754 binary64, round to nearest even. *)
Module Binary64.

(** [float(z)] for a Python int: the nearest double.  (CPython raises
    [OverflowError] beyond the range of a double, where this yields an
    infinity; no timestamp or score comes near.) *)
Definition of_Z (z : Z) : float :=
  SF2Prim (binary_normalize prec emax z 0 false).

(** A decimal literal [n/d] is read as the double nearest to it; for the
    literals of the sources, whose numerator and denominator are exact
    doubles, that is the correctly rounded quotient. *)
Definition of_decimal (q : Q) : float :=
  (of_Z (Qnum q) / of_Z (Z.pos (Qden q)))%float.

Definition trunc (x : float) : Z :=
  match Prim2SF x with
  | S754_finite s m e =>
      let magnitude :=
        match e with
        | Z.neg k => Z.shiftr (Z.pos m) (Z.pos k)
        | _ => Z.shiftl (Z.pos m) e
        end in
      if s then Z.opp magnitude else magnitude
  | _ => 0%Z
  end.

#[export] Instance binary64 : PyFloat float := {
  lit := of_decimal;
  of_int := of_Z;
  fadd := PrimFloat.add;
  fsub := PrimFloat.sub;
  fmul := PrimFloat.mul;
  fltb := PrimFloat.ltb;
  fleb := PrimFloat.leb;
  to_int := trunc
}.

(** *** Values and rounding

    What the proofs about rounding are stated with: the rational number a
    double stands for ([Fval]) and whether it is a number at all ([finite]),
    the double of a given value [j * 2^e] ([dyadic]), and the shape of the
    results of [SpecFloat]'s rounding ([fexp64], [canonical], [pack],
    [Inv]). *)

Definition SFfinite (x : spec_float) : bool :=
  match x with
  | S754_zero _ | S754_finite _ _ _ => true
  | _ => false
  end.

Definition SFval (x : spec_float) : Q :=
  match x with
  | S754_finite s m e =>
      ((if s then - inject_Z (Z.pos m) else inject_Z (Z.pos m)) * 2 ^ e)%Q
  | _ => 0%Q
  end.

Definition Fval (x : float) : Q := SFval (Prim2SF x).

Definition finite (x : float) : bool := SFfinite (Prim2SF x).

Definition sgn (s : bool) : Q := (if s then -1 else 1)%Q.

Definition dyadic (j e : Z) : float :=
  SF2Prim (binary_normalize prec emax j e false).

(** The exponent of the doubles with [e] binary digits before the point. *)
Definition fexp64 (e : Z) : Z := Z.max (e - 53) (-1074).

(** Mantissa and exponent of a double in its unique representation. *)
Definition canonical (m : positive) (e : Z) : Prop :=
  e = fexp64 (Z.pos (digits2_pos m) + e) /\ (e <= 971)%Z.

(** The double made of the rounded mantissa [m1] at the exponent [e']. *)
Definition pack (s : bool) (m1 e' : Z) : spec_float :=
  if (m1 =? 2 ^ 53)%Z then
    if (e' + 1 <=? 971)%Z then S754_finite s (2 ^ 52)%positive (e' + 1)
    else S754_infinity s
  else
    match m1 with
    | Z0 => S754_zero s
    | Z.pos m => if (e' <=? 971)%Z then S754_finite s m e' else S754_infinity s
    | Z.neg _ => S754_nan
    end.

(** What [k] right shifts of [M] leave in a shift record. *)
Definition Inv (M k : Z) (x : shr_record) : Prop :=
  (0 <= k /\ shr_m x = M / 2 ^ k
   /\ (M mod 2 ^ k = 0 -> shr_r x = false /\ shr_s x = false))%Z.

End Binary64.

(* ================================================================= *)
(** ** The part of pygame the sources rely on

    pygame is a third-party library; these definitions follow its reference
    documentation. *)
Module pygame.

(** [pygame.Rect]: integer left, top, width, height. *)
Record Rect : Type := { left : Z; top : Z; width : Z; height : Z }.

Definition right (r : Rect) : Z := left r + width r.
Definition bottom (r : Rect) : Z := top r + height r.

(** [Rect.collidepoint]: the right and bottom edges are outside. *)
Definition collidepoint (r : Rect) (p : Z * Z) : bool :=
  (left r <=? fst p)%Z && (fst p <? right r)%Z
  && (top r <=? snd p)%Z && (snd p <? bottom r)%Z.

Section Float.
Context {F : Type} {PF : PyFloat F}.
Local Open Scope py_scope.

Definition Vector2 : Type := (F * F)%type.

(** [pygame.math.lerp(a, b, weight)] is [a + (b - a) * weight]. *)
Definition lerp (a b weight : F) : F := a + (b - a) * weight.

(** [Surface.get_rect(topleft=v)]: a rectangle of the surface's size,
    its corner at the integer part of [v]. *)
Definition get_rect (size : Z * Z) (topleft : Vector2) : Rect :=
  {| left := to_int (fst topleft); top := to_int (snd topleft);
     width := fst size; height := snd size |}.
End Float.

End pygame.

(** [random.random()]: a generator state and the function that draws the next
    float from it. *)
Class Generator (F : Type) : Type := {
  rng : Type;
  random : rng -> F * rng
}.

(** The draws of a recorded run, replayed in order. *)
Definition replay {F : Type} {PF : PyFloat F} : Generator F := {|
  rng := list F;
  random := fun g =>
    match g with
    | [] => (lit 0, [])
    | r :: g' => (r, g')
    end
|}.

Section Rand.
Context {F : Type} {G : Generator F}.

Definition Rand (A : Type) : Type := rng -> A * rng.

Definition ret {A : Type} (a : A) : Rand A := fun g => (a, g).

Definition bind {A B : Type} (c : Rand A) (k : A -> Rand B) : Rand B :=
  fun g => let (a, g') := c g in k a g'.
End Rand.

Notation "x <- c ;; k" := (bind c (fun x => k))
  (at level 61, c at next level, right associativity).

(* ================================================================= *)
(** ** box.py *)
Module box.
Import pygame.

Section Box.
Context {F : Type} {PF : PyFloat F}.
Local Open Scope py_scope.

(** The size of the surface [font.render] returns for the text
    [f"{time:.2f}"]: it depends on the font file and on [BOX_FONTSIZE],
    which the sources do not fix. *)
Variable render_size : F -> Z * Z.

Definition SECONDS_PR_MILLISECONDS : F := lit 0.001.

(** The attributes of a [Box].  [rect] is set by [update], not by the
    constructor: it is absent until the first [update]. *)
Record Box : Type := {
  topleft : Vector2 (F := F);
  lifetime : F;
  created_at_timestamp_ms : Z;
  rect : option Rect
}.

Definition __init__ (now : Z) (lifetime_seconds : F) (topleft : Vector2)
  : Box :=
  {| topleft := topleft;
     lifetime := lifetime_seconds;
     created_at_timestamp_ms := now;
     rect := None |}.

Definition time_left_seconds (now : Z) (self : Box) : F :=
  lifetime self
  - SECONDS_PR_MILLISECONDS * of_int (now - created_at_timestamp_ms self).

Definition alive (now : Z) (self : Box) : bool :=
  of_int 0 <? time_left_seconds now self.

(** Only the size of the image matters to the game state; its text and
    colours are left to the presentation layer. *)
Definition generate_text (time : F) : Z * Z := render_size time.

Definition update (now : Z) (self : Box) : Box :=
  let image := generate_text (time_left_seconds now self) in
  {| topleft := topleft self;
     lifetime := lifetime self;
     created_at_timestamp_ms := created_at_timestamp_ms self;
     rect := Some (get_rect image (topleft self)) |}.

(** [None] stands for the [AttributeError] of a box never updated. *)
Definition is_hit_by_mouse (mouse : Z * Z) (self : Box) : option bool :=
  option_map (fun r => collidepoint r mouse) (rect self).
End Box.

Arguments Box F : clear implicits.

End box.

(* ================================================================= *)
(** ** box_spawner.py *)
Module box_spawner.
Import pygame box.

Section BoxSpawner.
Context {F : Type} {PF : PyFloat F} {G : Generator F}.
Local Open Scope py_scope.

(** From [settings.py]. *)
Variable SPAWN_WINDOW_SIZE_SECONDS : F.

Definition MILLISECONDS_PR_SECOND : Z := 1000.

Definition minimum_spawn_time_seconds (player_score : Z) : F :=
  if (player_score <=? 5)%Z then lit 1.0
  else if (player_score >=? 20)%Z then lit 0.1
  else lit 1.2 - lit 0.06 * of_int player_score.

Definition lifetime_from_score (player_score : Z) : F :=
  if (player_score <=? 5)%Z then lit 7.0
  else if (player_score >=? 20)%Z then lit 1.0
  else lit 9.0 - lit 0.4 * of_int player_score.

Definition random_cooldown_spawn_seconds (player_score : Z) : Rand F :=
  r <- random ;;
  ret (SPAWN_WINDOW_SIZE_SECONDS * r
       + minimum_spawn_time_seconds player_score).

Definition random_position_within_bounds (bounds : Rect)
  : Rand (Vector2 (F := F)) :=
  r1 <- random ;;
  let x := lerp (of_int (right bounds)) (of_int (left bounds)) r1 in
  r2 <- random ;;
  let y := lerp (of_int (bottom bounds)) (of_int (top bounds)) r2 in
  ret (x, y).

Record BoxSpawner : Type := {
  spawn_bounds : Rect;
  timestamp_next_spawn : F
}.

Definition reset_spawn_timer (now : Z) (player_score : Z)
    (self : BoxSpawner) : Rand BoxSpawner :=
  cooldown <- random_cooldown_spawn_seconds player_score ;;
  ret {| spawn_bounds := spawn_bounds self;
         timestamp_next_spawn :=
           of_int now + of_int MILLISECONDS_PR_SECOND * cooldown |}.

(** The constructor stores the bounds and calls [reset_spawn_timer()]
    with its default score 0; no timestamp exists before that call. *)
Definition __init__ (now : Z) (bounds : Rect) : Rand BoxSpawner :=
  cooldown <- random_cooldown_spawn_seconds 0 ;;
  ret {| spawn_bounds := bounds;
         timestamp_next_spawn :=
           of_int now + of_int MILLISECONDS_PR_SECOND * cooldown |}.

Definition spawn_now (now : Z) (player_score : Z) (self : BoxSpawner)
  : Rand (Box F * BoxSpawner) :=
  let lifetime := lifetime_from_score player_score in
  topleft <- random_position_within_bounds (spawn_bounds self) ;;
  self' <- reset_spawn_timer now player_score self ;;
  ret (box.__init__ now lifetime topleft, self').

(** Falling off the end of the method returns [None] and touches
    nothing. *)
Definition spawn (now : Z) (player_score : Z) (self : BoxSpawner)
  : Rand (option (Box F) * BoxSpawner) :=
  if timestamp_next_spawn self <=? of_int now then
    r <- spawn_now now player_score self ;;
    ret (Some (fst r), snd r)
  else ret (None, self).
End BoxSpawner.

Arguments BoxSpawner F : clear implicits.

End box_spawner.

(* ================================================================= *)
(** ** main.py *)
Module main.
Import pygame box box_spawner.

(** The event types [pygame.event.get()] can deliver. *)
Inductive Event : Type :=
| QUIT | MOUSEMOTION | MOUSEBUTTONDOWN | MOUSEBUTTONUP | KEYDOWN | KEYUP.

(** What one pass of the game loop reads from its environment: the event
    queue, the clock and the pointer.  One reading of the clock serves the
    whole pass: the calls of [get_ticks()] within a pass are taken to fall
    in the same millisecond. *)
Record Frame : Type := {
  events : list Event;
  ticks : Z;
  mouse_pos : Z * Z
}.

Inductive exn : Type := GameOver | AttributeError.

Definition game_is_closed (queue : list Event) : bool :=
  existsb (fun e => match e with QUIT => true | _ => false end) queue.

Section ButtonGame.
Context {F : Type} {PF : PyFloat F} {G : Generator F}.

Variable render_size : F -> Z * Z.
(** From [settings.py]. *)
Variable SPAWN_WINDOW_SIZE_SECONDS : F.
Variables SCREEN_WIDTH SCREEN_HEIGHT : Z.

(** [boxes] is the sprite group, in insertion order. *)
Record ButtonGame : Type := {
  player_score : Z;
  player_lives : Z;
  boxes : list (Box F);
  _box_spawner : BoxSpawner F
}.

Definition __init__ (now : Z) : Rand ButtonGame :=
  spawner <- box_spawner.__init__ SPAWN_WINDOW_SIZE_SECONDS now
               {| left := 100; top := 100;
                  width := SCREEN_WIDTH - 200;
                  height := SCREEN_HEIGHT - 200 |} ;;
  r <- spawn_now SPAWN_WINDOW_SIZE_SECONDS now 0 spawner ;;
  ret {| player_score := 0;
         player_lives := 3;
         boxes := [fst r];
         _box_spawner := snd r |}.

Definition spawn_new_box_if_possible (now : Z) (self : ButtonGame)
  : Rand ButtonGame :=
  r <- spawn SPAWN_WINDOW_SIZE_SECONDS now (player_score self)
         (_box_spawner self) ;;
  ret {| player_score := player_score self;
         player_lives := player_lives self;
         boxes := match fst r with
                  | Some b => boxes self ++ [b]
                  | None => boxes self
                  end;
         _box_spawner := snd r |}.

(** What the [for] loop of [update_sprites] changes. *)
Record Tally : Type := {
  lives : Z;
  score : Z;
  group : list (Box F);
  raised : option exn
}.

(** The loop runs over [sprites()], a copy of the group taken before the
    first pass, so a [kill] never disturbs the traversal; [box.kill()]
    takes that one sprite out of the group, and is harmless on a sprite
    already out.  The group after the loop is therefore the copy without
    the killed sprites, in order. *)
Fixpoint update_loop (now : Z) (mouse : Z * Z) (sprites : list (Box F))
    (player_lives player_score : Z) : Tally :=
  match sprites with
  | [] => {| lives := player_lives; score := player_score;
             group := []; raised := None |}
  | b :: rest =>
      let expired := negb (alive now b) in
      let player_lives :=
        if expired then (player_lives - 1)%Z else player_lives in
      match is_hit_by_mouse mouse b with
      | None =>
          {| lives := player_lives; score := player_score;
             group := if expired then rest else b :: rest;
             raised := Some AttributeError |}
      | Some hit =>
          let player_score :=
            if hit then (player_score + 1)%Z else player_score in
          let t := update_loop now mouse rest player_lives player_score in
          {| lives := lives t; score := score t;
             group := if expired || hit then group t else b :: group t;
             raised := raised t |}
      end
  end.

(** Whether the rectangle [update] gives the sprite of [b] at [now] contains
    the pointer: what [is_hit_by_mouse] answers inside [update_sprites]. *)
Definition hovered (now : Z) (mouse : Z * Z) (b : Box F) : bool :=
  collidepoint
    (get_rect (generate_text render_size (time_left_seconds now b))
              (topleft b))
    mouse.

(** The number of sprites of a group that satisfy [p]. *)
Definition count_if (p : Box F -> bool) (sprites : list (Box F)) : Z :=
  Z.of_nat (length (filter p sprites)).

(** The state after the call, and the exception it raised, if any. *)
Definition update_sprites (now : Z) (mouse : Z * Z) (self : ButtonGame)
  : ButtonGame * option exn :=
  let sprites := map (update render_size now) (boxes self) in
  let t := update_loop now mouse sprites
             (player_lives self) (player_score self) in
  ({| player_score := score t;
      player_lives := lives t;
      boxes := group t;
      _box_spawner := _box_spawner self |},
   match raised t with
   | Some e => Some e
   | None => if (lives t <=? 0)%Z then Some GameOver else None
   end).

(** How one pass of the [while True] loop ends. *)
Inductive Control : Type :=
| Running
| Returned (player_score : Z)
| Raised (e : exn).

Definition frame (fr : Frame) (self : ButtonGame)
  : Rand (ButtonGame * Control) :=
  if game_is_closed (events fr) then
    ret (self, Returned (player_score self))
  else
    self1 <- spawn_new_box_if_possible (ticks fr) self ;;
    let (self2, e) := update_sprites (ticks fr) (mouse_pos fr) self1 in
    ret (self2, match e with Some x => Raised x | None => Running end).

(** The loop, run on the readings of finitely many passes. *)
Fixpoint gameloop (frames : list Frame) (self : ButtonGame)
  : Rand (ButtonGame * Control) :=
  match frames with
  | [] => ret (self, Running)
  | fr :: rest =>
      r <- frame fr self ;;
      match snd r with
      | Running => gameloop rest (fst r)
      | _ => ret r
      end
  end.

(** The states a session passes through while it runs. *)
Inductive reachable : ButtonGame -> rng -> Prop :=
| reach_init : forall now g,
    reachable (fst (__init__ now g)) (snd (__init__ now g))
| reach_frame : forall self g fr self' g',
    reachable self g ->
    frame fr self g = (self', Running, g') ->
    reachable self' g'.
End ButtonGame.

Arguments ButtonGame F : clear implicits.
Arguments Tally F : clear implicits.

End main.

(* ================================================================= *)
(** ** main.py: what the program shows and prints

    [draw_game_objects], [ButtonGame.run] and [main] act on the display,
    the clock and the standard output.  Their calls are recorded in order
    as a list of [Effect]s; the state they act on is that of [main]. *)
Module output.
Import pygame box box_spawner main.

(** [str(n)] of a Python int, as an f-string inserts it. *)
Definition str (n : Z) : String.string :=
  DecimalString.NilZero.string_of_int (Z.to_int n).

(** The calls the sources make on pygame and on the standard output.
    [draw_sprite r] is the blit of one sprite's image at its [rect] by
    [Group.draw]; [blit_text t dest] is [display.blit(font.render(t, ...),
    dest)] (the colour and the font are not recorded). *)
Inductive Effect : Type :=
| pygame_init
| pygame_quit
| set_mode (size : Z * Z)
| fill_black
| draw_sprite (r : Rect)
| blit_text (text : String.string) (dest : Z * Z)
| display_update
| clock_tick (fps : Z)
| print (line : String.string).


Section Output.
Context {F : Type} {PF : PyFloat F} {G : Generator F}.

Variable render_size : F -> Z * Z.
(** From [settings.py]. *)
Variable SPAWN_WINDOW_SIZE_SECONDS : F.
Variables SCREEN_WIDTH SCREEN_HEIGHT FPS UI_FONTSIZE : Z.

(** [Group.draw(surface)]: the sprites are blitted in order, each at its
    [rect]; a sprite without one stops the call with [AttributeError]. *)
Fixpoint Group_draw (sprites : list (Box F)) : list Effect * option exn :=
  match sprites with
  | [] => ([], None)
  | b :: rest =>
      match rect b with
      | None => ([], Some AttributeError)
      | Some r =>
          let (drawn, e) := Group_draw rest in (draw_sprite r :: drawn, e)
      end
  end.

Definition draw_game_objects (self : ButtonGame F)
  : list Effect * option exn :=
  let (drawn, e) := Group_draw (boxes self) in
  match e with
  | Some x => (drawn, Some x)
  | None =>
      (drawn
       ++ [blit_text
             (String.append "Player score: "%string (str (player_score self)))
             (0, 0)%Z;
           blit_text
             (String.append "Lives: "%string (str (player_lives self)))
             (0%Z, UI_FONTSIZE)],
       None)
  end.

(** One pass of the [while True] loop of [gameloop], with its effects.  An
    exception leaves the pass where it is raised. *)
Definition frame_output (fr : Frame) (self : ButtonGame F)
  : Rand (ButtonGame F * Control * list Effect) :=
  if game_is_closed (events fr) then
    ret (self, Returned (player_score self), [])
  else
    self1 <- spawn_new_box_if_possible SPAWN_WINDOW_SIZE_SECONDS (ticks fr)
               self ;;
    let (self2, e) :=
      update_sprites render_size (ticks fr) (mouse_pos fr) self1 in
    match e with
    | Some x => ret (self2, Raised x, [fill_black])
    | None =>
        let (drawn, e') := draw_game_objects self2 in
        match e' with
        | Some x => ret (self2, Raised x, fill_black :: drawn)
        | None =>
            ret (self2, Running,
                 fill_black :: drawn ++ [display_update; clock_tick FPS])
        end
    end.

(** The loop, run on the readings of finitely many passes. *)
Fixpoint gameloop_output (frames : list Frame) (self : ButtonGame F)
  : Rand (ButtonGame F * Control * list Effect) :=
  match frames with
  | [] => ret (self, Running, [])
  | fr :: rest =>
      r <- frame_output fr self ;;
      match snd (fst r) with
      | Running =>
          r' <- gameloop_output rest (fst (fst r)) ;;
          ret (fst r', snd r ++ snd r')
      | _ => ret r
      end
  end.

(** [ButtonGame.run].  The result is [None] while the loop has not ended
    within the given passes; otherwise the game as [run] leaves it, the
    value returned or the exception that leaves [run], and the effects.
    [except GameOver] prints the score; [finally] runs on every way
    out. *)
Definition run (deinitiallized_pygame_when_closed : bool)
    (frames : list Frame) (self : ButtonGame F)
  : Rand (option (ButtonGame F * (Z + exn) * list Effect)) :=
  r <- gameloop_output frames self ;;
  let self' := fst (fst r) in
  let finally :=
    if deinitiallized_pygame_when_closed then [pygame_quit] else [] in
  ret (match snd (fst r) with
       | Running => None
       | Returned _ =>
           Some (self', inl (player_score self'), snd r ++ finally)
       | Raised GameOver =>
           Some (self', inl (player_score self'),
                 snd r
                 ++ [print (String.append "Player score: "%string
                              (str (player_score self')))]
                 ++ finally)
       | Raised x => Some (self', inr x, snd r ++ finally)
       end).

(** [ButtonGame()]: the constructor of [main.__init__], with its calls on
    pygame. *)
Definition __init__ (now : Z) : Rand (ButtonGame F * list Effect) :=
  self <- main.__init__ SPAWN_WINDOW_SIZE_SECONDS SCREEN_WIDTH SCREEN_HEIGHT
            now ;;
  ret (self, [pygame_init; set_mode (SCREEN_WIDTH, SCREEN_HEIGHT)]).

(** [main()]: [None] while the loop has not ended; otherwise the exception
    that leaves [main], if any, and the effects. *)
Definition main (now : Z) (frames : list Frame)
  : Rand (option (option exn * list Effect)) :=
  game <- __init__ now ;;
  r <- run true frames (fst game) ;;
  ret (match r with
       | None => None
       | Some (_, inl _, shown) =>
           Some (None, pygame_init :: snd game ++ shown ++ [pygame_quit])
       | Some (_, inr x, shown) =>
           Some (Some x, pygame_init :: snd game ++ shown)
       end).
End Output.

End output.


(* ================================================================= *)
(** ** Concrete inputs used by the examples *)
Module Scenarios.
Import pygame box box_spawner main.

Section Inputs.
Context {F : Type} {PF : PyFloat F}.

(** Scenario B of the specification: lifetime 7.0, created at 1000 ms. *)
Definition scenario_B : Box F :=
  box.__init__ 1000 (lit 7.0) (lit 100, lit 100).

(** A box created at 0 ms with lifetime 7.0 at (100, 100), as the first box
    of a session is. *)
Definition first_box : Box F :=
  box.__init__ 0 (lit 7.0) (lit 100, lit 100).

(** A rendered text of 60 by 24 pixels, whatever the time shown. *)
Definition text_60x24 : F -> Z * Z := fun _ => (60, 24)%Z.

(** A session with its three lives, no point yet, and [first_box] on
    screen; the next spawn is due at 1500 ms. *)
Definition one_box_game : ButtonGame F := {|
  player_score := 0;
  player_lives := 3;
  boxes := [first_box];
  _box_spawner :=
    {| spawn_bounds := {| left := 100; top := 100;
                          width := 600; height := 400 |};
       timestamp_next_spawn := lit 1500 |}
|}.
End Inputs.

End Scenarios.

(* ================================================================= *)
(** ** Quantities of the statements *)

(** The lifetime that [lifetime_from_score] gives, in whole milliseconds
    ([lifetime_ms_exact] below relates the two). *)
Definition lifetime_ms (player_score : Z) : Z :=
  if (player_score <=? 5)%Z then 7000
  else if (player_score >=? 20)%Z then 1000
  else (9000 - 400 * player_score)%Z.

(* ================================================================= *)
(** ** box.py: the background of the image

    [generate_text] picks the background colour of the image by the time
    left: it divides the time by [MAXIMUM_LIFETIME_SECONDS], clamps the
    quotient to [0, 1] and hands it to [Color.lerp]. *)
Module image.

(** Python's [x / y] on floats; [None] stands for [ZeroDivisionError]. *)
Class PyDivision (F : Type) : Type := { fdiv : F -> F -> option F }.

#[export] Instance exact_division : PyDivision Q := {
  fdiv := fun x y => if Qeq_bool y 0 then None else Some (x / y)%Q
}.

#[export] Instance binary64_division : PyDivision float := {
  fdiv := fun x y => if (y =? 0)%float then None else Some (x / y)%float
}.

Section Image.
Context {F : Type} {PF : PyFloat F} {PD : PyDivision F}.
Local Open Scope py_scope.

(** From [settings.py]. *)
Variable MAXIMUM_LIFETIME_SECONDS : F.

(** [pygame.math.clamp(value, min, max)]: [min] when the value is below
    it, [max] when the value is above it, the value otherwise. *)
Definition clamp (value min max : F) : F :=
  if value <? min then min else if max <? value then max else value.

(** [Color.lerp(color, amount)] raises [ValueError] unless the amount lies
    in [0, 1]: whether it accepts [amount]. *)
Definition lerp_accepts (amount : F) : bool :=
  negb (amount <? of_int 0) && negb (of_int 1 <? amount).

(** The [normalized_time] of [generate_text]. *)
Definition normalized_time (time : F) : option F :=
  option_map (fun quotient => clamp quotient (of_int 0) (of_int 1))
             (fdiv time MAXIMUM_LIFETIME_SECONDS).
End Image.

End image.

(* ================================================================= *)
(** ** Proof steps shared below *)

Import pygame box box_spawner main Scenarios.
Import Exact Binary64.

(** Unfolds the operations of [exact] to those of [Q]. *)
Ltac exact_arith :=
  cbn [lit of_int fadd fsub fmul fltb fleb to_int exact] in *.

(** Splits on the two tests of a difficulty curve. *)
Ltac by_score s :=
  unfold minimum_spawn_time_seconds, lifetime_from_score;
  destruct (Z.leb_spec s 5) as [?|?];
  [ | destruct (Z.geb_spec s 20) as [?|?] ].

(** Evaluates a goal at each of the fourteen scores strictly between the
    breakpoints. *)
Ltac each_middle_score s :=
  let M := fresh "M" in
  assert (M : In s [6; 7; 8; 9; 10; 11; 12; 13; 14; 15; 16; 17; 18; 19]%Z)
    by (simpl; lia);
  repeat (destruct M as [<- | M]; [vm_compute; auto | ]);
  destruct M.

(* ================================================================= *)
(** ** Arithmetic of the two instances *)

(** The decimal literals of the sources, read by [binary64], are the doubles
    CPython reads them as. *)
Lemma binary64_literals :
  map (lit (F := float)) [0.001; 1.0; 0.1; 1.2; 0.06; 7.0; 9.0; 0.4]%Q
  = [0.001; 1.0; 0.1; 1.2; 0.06; 7.0; 9.0; 0.4]%float.
Proof. vm_compute. reflexivity. Qed.

Lemma binary64_of_int_small :
  map (of_int (F := float)) [0; 6; 19; 500; 1000; 7100; -3]%Z
  = [0; 6; 19; 500; 1000; 7100; -3]%float.
Proof. vm_compute. reflexivity. Qed.

Lemma exact_ltb_iff (x y : Q) : Exact.ltb x y = true <-> x < y.
Proof.
  unfold Exact.ltb. rewrite negb_true_iff.
  split; intros H.
  - apply Qnot_le_lt. intros L. apply Qle_bool_iff in L. congruence.
  - destruct (Qle_bool y x) eqn:E; [|reflexivity].
    apply Qle_bool_iff in E. exfalso. exact (Qlt_not_le _ _ H E).
Qed.

Lemma exact_ltb_false_iff (x y : Q) : Exact.ltb x y = false <-> y <= x.
Proof.
  unfold Exact.ltb. rewrite negb_false_iff. apply Qle_bool_iff.
Qed.

(* ================================================================= *)
(** ** Rounding in binary64

    The operations of [binary64] round the exact result to the nearest
    double.  What the proofs below need of that is an enclosure: when the
    exact result of a product, a sum or a difference of finite doubles
    lies between two finite doubles, so does the rounded result
    ([mul_enclosed], [add_enclosed], [sub_enclosed]); the comparisons of
    finite doubles are those of their values ([leb_val], [ltb_val]); and
    integers below 2^53 convert exactly ([of_Z_exact]). *)

Section Rounding.
Local Open Scope Z_scope.

(** *** Rounding a mantissa

    [binary_round_aux] shifts the mantissa right to the exponent of the
    format and rounds it to nearest even. *)
Lemma fexp_fexp64 e : fexp prec emax e = fexp64 e.
Proof. reflexivity. Qed.

(** A positive number of [d] binary digits lies in [2^(d-1), 2^d). *)
Lemma digits_bounds (p : positive) :
  2 ^ (Z.pos (digits2_pos p) - 1) <= Z.pos p < 2 ^ Z.pos (digits2_pos p).
Proof.
  induction p as [p IH | p IH |]; cbn [digits2_pos].
  - rewrite Pos2Z.inj_succ. replace (Z.succ (Z.pos (digits2_pos p)) - 1) with (Z.succ (Z.pos (digits2_pos p) - 1)) by lia.
    rewrite !Z.pow_succ_r by lia. lia.
  - rewrite Pos2Z.inj_succ. replace (Z.succ (Z.pos (digits2_pos p)) - 1) with (Z.succ (Z.pos (digits2_pos p) - 1)) by lia.
    rewrite !Z.pow_succ_r by lia. lia.
  - simpl. lia.
Qed.

Section Shift.
Variable M : Z.
Hypothesis M_nonneg : 0 <= M.


Lemma Inv_step k x : Inv M k x -> Inv M (k + 1) (shr_1 x).
Proof.
  intros (Hk & Hm & Hz).
  assert (P : 0 < 2 ^ k) by (apply Z.pow_pos_nonneg; lia).
  assert (Hdiv : M / 2 ^ (k + 1) = (M / 2 ^ k) / 2).
  { rewrite Z.pow_add_r by lia. rewrite Z.pow_1_r. rewrite Z.div_div by lia. reflexivity. }
  assert (Hmod : M mod 2 ^ (k + 1) = M mod 2 ^ k + 2 ^ k * ((M / 2 ^ k) mod 2)).
  { rewrite Z.pow_add_r by lia. rewrite Z.pow_1_r. apply Z.rem_mul_r; lia. }
  assert (Q0 : 0 <= M / 2 ^ k) by (apply Z.div_pos; lia).
  pose proof (Z.mod_pos_bound M (2 ^ k) P) as B1.
  pose proof (Z.mod_pos_bound (M / 2 ^ k) 2 ltac:(lia)) as B2.
  destruct x as [m r s]. cbn [shr_m shr_r shr_s] in *. subst m.
  split; [lia|].
  destruct (M / 2 ^ k) as [|q|q] eqn:Eq; [| |lia].
  - cbn [shr_1 shr_m shr_r shr_s]. split; [rewrite Hdiv; reflexivity|].
    intros Z0. assert (M mod 2 ^ k = 0) by nia. destruct (Hz H) as [-> ->]. auto.
  - destruct q as [q|q|]; cbn [shr_1 shr_m shr_r shr_s].
    + split; [rewrite Hdiv; rewrite Pos2Z.inj_xI; apply Z.div_unique with 1; lia|].
      intros Z0. exfalso. rewrite Hmod in Z0.
      replace (Z.pos q~1 mod 2) with 1 in Z0; [nia|].
      rewrite Pos2Z.inj_xI. apply Z.mod_unique with (Z.pos q); lia.
    + split; [rewrite Hdiv; rewrite Pos2Z.inj_xO; apply Z.div_unique with 0; lia|].
      intros Z0. assert (M mod 2 ^ k = 0) by nia. destruct (Hz H) as [-> ->]. auto.
    + split; [rewrite Hdiv; reflexivity|].
      intros Z0. exfalso. rewrite Hmod in Z0. change (1 mod 2) with 1 in Z0. nia.
Qed.

Lemma Inv_iter p : forall k x, Inv M k x -> Inv M (k + Z.pos p) (iter_pos shr_1 p x).
Proof.
  induction p as [p IH | p IH |]; intros k x H; cbn [iter_pos].
  - replace (k + Z.pos p~1) with (k + 1 + Z.pos p + Z.pos p) by lia.
    apply IH, IH, Inv_step, H.
  - replace (k + Z.pos p~0) with (k + Z.pos p + Z.pos p) by lia.
    apply IH, IH, H.
  - apply Inv_step, H.
Qed.

Lemma Inv_start : Inv M 0 {| shr_m := M; shr_r := false; shr_s := false |}.
Proof.
  split; [lia|]. cbn. split; [rewrite Z.div_1_r; reflexivity|auto].
Qed.

(** Shifting right by [n >= 0] places, then rounding to nearest even. *)
Lemma shift_round (E n : Z) :
  0 <= n ->
  exists m1,
    (m1 = M / 2 ^ n \/ m1 = M / 2 ^ n + 1)
    /\ (M mod 2 ^ n = 0 -> m1 = M / 2 ^ n)
    /\ (let '(mrs, e) := shr {| shr_m := M; shr_r := false; shr_s := false |} E n in
        (round_nearest_even (shr_m mrs) (loc_of_shr_record mrs), e))
       = (m1, E + n).
Proof.
  intros Hn.
  assert (I : Inv M n (fst (shr {| shr_m := M; shr_r := false; shr_s := false |} E n))
              /\ snd (shr {| shr_m := M; shr_r := false; shr_s := false |} E n) = E + n).
  { unfold shr. destruct n as [|p|p]; [| |lia].
    - cbn [fst snd]. split; [apply Inv_start|lia].
    - cbn [fst snd]. split; [|reflexivity].
      change (Z.pos p) with (0 + Z.pos p). apply Inv_iter, Inv_start. }
  destruct (shr _ E n) as [mrs e]. cbn [fst snd] in I. destruct I as [(_ & Hm & Hz) ->].
  exists (round_nearest_even (shr_m mrs) (loc_of_shr_record mrs)).
  split; [|split; [|reflexivity]].
  - destruct mrs as [m r s]. cbn [shr_m] in *. subst m.
    destruct r, s; cbn [loc_of_shr_record round_nearest_even]; auto.
    destruct (Z.even _); auto.
  - intros Z0. destruct (Hz Z0) as [Hr Hs]. destruct mrs as [m r s]. cbn in *. subst. reflexivity.
Qed.
End Shift.


Lemma Zdigits2_le_53 (m : Z) : 0 <= m < 2 ^ 53 -> Zdigits2 m <= 53.
Proof.
  intros [H0 H1]. destruct m as [|p|p]; [cbn; lia| |lia].
  cbn [Zdigits2]. pose proof (digits_bounds p) as [B _].
  destruct (Z_le_gt_dec (Z.pos (digits2_pos p)) 53) as [L|G]; [exact L|].
  exfalso. assert (2 ^ 53 <= 2 ^ (Z.pos (digits2_pos p) - 1))
    by (apply Z.pow_le_mono_r; lia). lia.
Qed.

Lemma second_shift (m1 e' : Z) :
  0 <= m1 <= 2 ^ 53 -> -1074 <= e' ->
  shr_fexp prec emax m1 e' loc_Exact
  = if m1 =? 2 ^ 53
    then ({| shr_m := 2 ^ 52; shr_r := false; shr_s := false |}, e' + 1)
    else ({| shr_m := m1; shr_r := false; shr_s := false |}, e').
Proof.
  intros Hm He. unfold shr_fexp. rewrite fexp_fexp64. cbn [shr_record_of_loc].
  destruct (Z.eqb_spec m1 (2 ^ 53)) as [->|Hne].
  - change (Zdigits2 (2 ^ 53)) with 54.
    replace (fexp64 (54 + e') - e') with 1 by (unfold fexp64; lia).
    reflexivity.
  - pose proof (@Zdigits2_le_53 m1 ltac:(lia)) as D.
    assert (N : fexp64 (Zdigits2 m1 + e') - e' <= 0) by (unfold fexp64; lia).
    unfold shr. destruct (fexp64 (Zdigits2 m1 + e') - e'); try reflexivity. lia.
Qed.

(** The rounding of [M * 2^E]: the mantissa is [M] shifted right to the
    exponent [e'] of the format, rounded down or up (and kept when the shift
    drops no bit); the result is [pack] of it. *)
Lemma round_aux_char (s : bool) (M : positive) (E : Z) :
  let e' := fexp64 (Z.pos (digits2_pos M) + E) in
  E <= e' ->
  exists m1,
    (m1 = Z.pos M / 2 ^ (e' - E) \/ m1 = Z.pos M / 2 ^ (e' - E) + 1)
    /\ (Z.pos M mod 2 ^ (e' - E) = 0 -> m1 = Z.pos M / 2 ^ (e' - E))
    /\ 0 <= Z.pos M / 2 ^ (e' - E) < 2 ^ 53
    /\ (-1074 < e' -> 2 ^ 52 <= Z.pos M / 2 ^ (e' - E))
    /\ binary_round_aux prec emax s (Z.pos M) E loc_Exact = pack s m1 e'.
Proof.
  intros e' Hle.
  pose proof (digits_bounds M) as [D1 D2].
  set (d := Z.pos (digits2_pos M)) in *.
  set (n := e' - E).
  assert (Hn : 0 <= n) by (unfold n; lia).
  assert (P : 0 < 2 ^ n) by (apply Z.pow_pos_nonneg; lia).
  assert (Hd : d <= 53 + n) by (unfold n, e', fexp64; lia).
  assert (B1 : 0 <= Z.pos M / 2 ^ n < 2 ^ 53).
  { split; [apply Z.div_pos; lia|].
    apply Z.div_lt_upper_bound; [lia|].
    rewrite <- Z.pow_add_r by lia.
    assert (2 ^ d <= 2 ^ (n + 53)) by (apply Z.pow_le_mono_r; lia). lia. }
  assert (B2 : -1074 < e' -> 2 ^ 52 <= Z.pos M / 2 ^ n).
  { intros Hnorm. assert (En : d - 1 = n + 52) by (unfold n, e', fexp64 in *; lia).
    apply Z.div_le_lower_bound; [lia|].
    rewrite <- Z.pow_add_r by lia. rewrite <- En. exact D1. }
  destruct (@shift_round (Z.pos M) ltac:(lia) E n Hn) as (m1 & Hm1 & Hex & Heq).
  exists m1. repeat (split; [assumption|]).
  unfold binary_round_aux, shr_fexp at 1. rewrite fexp_fexp64.
  cbn [shr_record_of_loc Zdigits2]. fold d. fold e'. fold n.
  destruct (shr {| shr_m := Z.pos M; shr_r := false; shr_s := false |} E n)
    as [mrs e1].
  injection Heq as H1 H2. rewrite H1, H2.
  replace (E + n) with e' by (unfold n; lia).
  rewrite second_shift by (unfold e', fexp64; lia).
  unfold pack. destruct (m1 =? 2 ^ 53); cbn [shr_m]; [reflexivity|].
  destruct m1; reflexivity.
Qed.

(** *** Values of doubles *)
Local Open Scope Q_scope.



Lemma pow2_pos (e : Z) : 0 < 2 ^ e.
Proof. apply Qpower_0_lt. reflexivity. Qed.

Lemma pow2_add (a b : Z) : 2 ^ (a + b) == 2 ^ a * 2 ^ b.
Proof. apply Qpower_plus. discriminate. Qed.

Lemma pow2_Z (n : Z) : (0 <= n)%Z -> 2 ^ n == inject_Z (2 ^ n).
Proof. intros H. rewrite Zpower_Qpower by exact H. reflexivity. Qed.

Lemma pow2_split (a b : Z) : (a <= b)%Z -> 2 ^ b == inject_Z (2 ^ (b - a)) * 2 ^ a.
Proof.
  intros H. rewrite <- pow2_Z by lia. rewrite <- pow2_add.
  replace (b - a + a)%Z with b by lia. reflexivity.
Qed.

Lemma pow2_le (a b : Z) : (a <= b)%Z -> 2 ^ a <= 2 ^ b.
Proof.
  intros H. rewrite (pow2_split H).
  assert (1 <= 2 ^ (b - a))%Z by (apply (Z.pow_le_mono_r 2 0); lia).
  assert (1 <= inject_Z (2 ^ (b - a))) by (change 1 with (inject_Z 1); rewrite <- Zle_Qle; lia).
  pose proof (pow2_pos a). nra.
Qed.

(** [x * 2^a] against [y * 2^b], brought to the integers. *)
Lemma scaled_le (x y a b : Z) :
  (a <= b)%Z ->
  (inject_Z x * 2 ^ a <= inject_Z y * 2 ^ b <-> (x <= y * 2 ^ (b - a))%Z).
Proof.
  intros H. rewrite (pow2_split H). pose proof (pow2_pos a) as P.
  rewrite Zle_Qle, inject_Z_mult. split; intros L.
  - apply Qmult_le_r with (2 ^ a); [exact P|]. lra.
  - apply (Qmult_le_compat_r _ _ (2 ^ a)) in L; [lra|lra].
Qed.

Lemma scaled_le' (x y a b : Z) :
  (a <= b)%Z ->
  (inject_Z y * 2 ^ b <= inject_Z x * 2 ^ a <-> (y * 2 ^ (b - a) <= x)%Z).
Proof.
  intros H. rewrite (pow2_split H). pose proof (pow2_pos a) as P.
  rewrite Zle_Qle, inject_Z_mult. split; intros L.
  - apply Qmult_le_r with (2 ^ a); [exact P|]. lra.
  - apply (Qmult_le_compat_r _ _ (2 ^ a)) in L; [lra|lra].
Qed.

Lemma scaled_lt (x y a b : Z) :
  (a <= b)%Z ->
  (inject_Z x * 2 ^ a < inject_Z y * 2 ^ b <-> (x < y * 2 ^ (b - a))%Z).
Proof.
  intros H. pose proof (@scaled_le' x y a b H) as S. split; intros L.
  - apply Z.nle_gt. intros C. apply S in C. lra.
  - apply Qnot_le_lt. intros C. apply S in C. lia.
Qed.

Lemma scaled_lt' (x y a b : Z) :
  (a <= b)%Z ->
  (inject_Z y * 2 ^ b < inject_Z x * 2 ^ a <-> (y * 2 ^ (b - a) < x)%Z).
Proof.
  intros H. pose proof (@scaled_le x y a b H) as S. split; intros L.
  - apply Z.nle_gt. intros C. apply S in C. lra.
  - apply Qnot_le_lt. intros C. apply S in C. lia.
Qed.


(** The valid finite doubles are the canonical pairs. *)
Lemma valid_finite (s : bool) (m : positive) (e : Z) :
  valid_binary (S754_finite s m e) = true <-> canonical m e.
Proof.
  unfold valid_binary, SpecFloat.valid_binary, bounded, canonical_mantissa, canonical.
  rewrite fexp_fexp64, andb_true_iff, Z.eqb_eq, Z.leb_le.
  change (emax - prec)%Z with 971%Z. intuition congruence.
Qed.

Lemma canonical_bounds (m : positive) (e : Z) :
  canonical m e ->
  (-1074 <= e)%Z /\ (Z.pos m < 2 ^ 53)%Z /\ (-1074 < e -> 2 ^ 52 <= Z.pos m)%Z.
Proof.
  intros [He Hmax]. pose proof (digits_bounds m) as [D1 D2].
  set (d := Z.pos (digits2_pos m)) in *.
  assert (Hd : (d <= 53)%Z) by (unfold fexp64 in He; lia).
  split; [unfold fexp64 in He; lia|]. split.
  - assert (2 ^ d <= 2 ^ 53)%Z by (apply Z.pow_le_mono_r; lia). lia.
  - intros Hn. assert (d = 53)%Z by (unfold fexp64 in He; lia).
    replace (d - 1)%Z with 52%Z in D1 by lia. exact D1.
Qed.

Lemma Qcompare_Lt (x y : Q) : x < y -> (x ?= y) = Lt.
Proof. apply Qlt_alt. Qed.
Lemma Qcompare_Gt (x y : Q) : y < x -> (x ?= y) = Gt.
Proof. apply Qgt_alt. Qed.
Lemma Qcompare_Eq (x y : Q) : x == y -> (x ?= y) = Eq.
Proof. apply Qeq_alt. Qed.

Lemma mag_lt_of_exp (m1 m2 : positive) (e1 e2 : Z) :
  canonical m1 e1 -> canonical m2 e2 -> (e1 < e2)%Z ->
  inject_Z (Z.pos m1) * 2 ^ e1 < inject_Z (Z.pos m2) * 2 ^ e2.
Proof.
  intros C1 C2 H.
  destruct (canonical_bounds C1) as (A1 & A2 & _).
  destruct (canonical_bounds C2) as (B1 & _ & B3).
  apply scaled_lt; [lia|].
  assert (2 ^ 1 <= 2 ^ (e2 - e1))%Z by (apply Z.pow_le_mono_r; lia).
  assert (2 ^ 52 <= Z.pos m2)%Z by (apply B3; lia).
  change (2 ^ 1)%Z with 2%Z in *. nia.
Qed.

(** Canonical pairs compare by exponent first, then by mantissa, as their
    values do. *)
Lemma mag_compare (m1 m2 : positive) (e1 e2 : Z) :
  canonical m1 e1 -> canonical m2 e2 ->
  match (e1 ?= e2)%Z with
  | Lt => Lt
  | Gt => Gt
  | Eq => Pos.compare_cont Eq m1 m2
  end
  = (inject_Z (Z.pos m1) * 2 ^ e1 ?= inject_Z (Z.pos m2) * 2 ^ e2).
Proof.
  intros C1 C2. destruct (Z.compare_spec e1 e2) as [E|L|G].
  - subst e2. pose proof (pow2_pos e1) as P.
    change (Pos.compare_cont Eq m1 m2) with (Pos.compare m1 m2).
    destruct (Pos.compare_spec m1 m2) as [E|L|G]; symmetry.
    + subst. apply Qcompare_Eq. reflexivity.
    + apply Qcompare_Lt. apply Qmult_lt_r; [exact P|]. rewrite <- Zlt_Qlt. lia.
    + apply Qcompare_Gt. apply Qmult_lt_r; [exact P|]. rewrite <- Zlt_Qlt. lia.
  - symmetry. apply Qcompare_Lt. apply mag_lt_of_exp; assumption.
  - symmetry. apply Qcompare_Gt. apply mag_lt_of_exp; assumption || lia.
Qed.

(** The comparison of valid finite doubles is that of their values. *)
Lemma SFcompare_val (x y : spec_float) :
  valid_binary x = true -> valid_binary y = true ->
  SFfinite x = true -> SFfinite y = true ->
  SFcompare x y = Some (SFval x ?= SFval y).
Proof.
  intros Vx Vy Fx Fy.
  destruct x as [sx| | |sx mx ex]; try discriminate Fx;
    destruct y as [sy| | |sy my ey]; try discriminate Fy;
    cbn [SFcompare SFval].
  - reflexivity.
  - f_equal. pose proof (pow2_pos ey) as P.
    assert (0 < inject_Z (Z.pos my)) by (change 0 with (inject_Z 0); rewrite <- Zlt_Qlt; lia).
    destruct sy; symmetry; [apply Qcompare_Gt | apply Qcompare_Lt]; nra.
  - f_equal. pose proof (pow2_pos ex) as P.
    assert (0 < inject_Z (Z.pos mx)) by (change 0 with (inject_Z 0); rewrite <- Zlt_Qlt; lia).
    destruct sx; symmetry; [apply Qcompare_Lt | apply Qcompare_Gt]; nra.
  - apply valid_finite in Vx, Vy. f_equal.
    pose proof (pow2_pos ex) as Px. pose proof (pow2_pos ey) as Py.
    assert (0 < inject_Z (Z.pos mx)) by (change 0 with (inject_Z 0); rewrite <- Zlt_Qlt; lia).
    assert (0 < inject_Z (Z.pos my)) by (change 0 with (inject_Z 0); rewrite <- Zlt_Qlt; lia).
    destruct sx, sy.
    + pose proof (mag_compare Vx Vy) as MC.
      transitivity (CompOpp (inject_Z (Z.pos mx) * 2 ^ ex ?= inject_Z (Z.pos my) * 2 ^ ey)).
      { rewrite <- MC. destruct (ex ?= ey)%Z; reflexivity. }
      destruct (Qcompare_spec (inject_Z (Z.pos mx) * 2 ^ ex) (inject_Z (Z.pos my) * 2 ^ ey)) as [E|L|G];
        cbn [CompOpp]; symmetry.
      * apply Qcompare_Eq. lra.
      * apply Qcompare_Gt. lra.
      * apply Qcompare_Lt. lra.
    + symmetry. apply Qcompare_Lt. nra.
    + symmetry. apply Qcompare_Gt. nra.
    + apply mag_compare; assumption.
Qed.


Lemma SFval_finite (s : bool) (m : positive) (e : Z) :
  SFval (S754_finite s m e) == sgn s * (inject_Z (Z.pos m) * 2 ^ e).
Proof. unfold SFval, sgn. destruct s; ring. Qed.

(** [pack] yields a finite double of the value [m1 * 2^e'], or overflows to
    an infinity when that value reaches [2^1024]. *)
Lemma pack_cases (s : bool) (m1 e' : Z) :
  (0 <= m1 <= 2 ^ 53)%Z ->
  (-1074 < e' -> 2 ^ 52 <= m1)%Z ->
  (SFfinite (pack s m1 e') = true
   /\ SFval (pack s m1 e') == sgn s * (inject_Z m1 * 2 ^ e'))
  \/ (pack s m1 e' = S754_infinity s
      /\ 2 ^ 1024 <= inject_Z m1 * 2 ^ e').
Proof.
  intros Hm Hn. unfold pack.
  destruct (Z.eqb_spec m1 (2 ^ 53)) as [->|Hne].
  - destruct (Z.leb_spec (e' + 1) 971) as [L|G].
    + left. split; [reflexivity|]. rewrite SFval_finite.
      rewrite pow2_add. change (inject_Z (Z.pos (2 ^ 52))) with (2 ^ 52).
      change (inject_Z (2 ^ 53)) with (2 ^ 53). change (2 ^ 1) with 2.
      change (2 ^ 53) with (2 * 2 ^ 52). ring.
    + right. split; [reflexivity|].
      pose proof (@pow2_le 971 e' ltac:(lia)) as P.
      change (inject_Z (2 ^ 53)) with (2 ^ 53).
      change (2 ^ 1024) with (2 ^ 53 * 2 ^ 971).
      apply Qmult_le_l; [reflexivity|exact P].
  - destruct m1 as [|m|m]; [| |lia].
    + left. split; [reflexivity|]. cbn [SFval]. change (inject_Z 0) with 0. ring.
    + destruct (Z.leb_spec e' 971) as [L|G].
      * left. split; [reflexivity|]. apply SFval_finite.
      * right. split; [reflexivity|].
        pose proof (@pow2_le 972 e' ltac:(lia)) as P.
        assert (2 ^ 52 <= inject_Z (Z.pos m)).
        { change (2 ^ 52) with (inject_Z (2 ^ 52)). rewrite <- Zle_Qle. apply Hn. lia. }
        change (2 ^ 1024) with (2 ^ 52 * 2 ^ 972).
        pose proof (pow2_pos 972). pose proof (pow2_pos e').
        assert (0 < 2 ^ 52) by reflexivity. nra.
Qed.

Section Magnitude.
Variables (M : positive) (E : Z).
Let e' := fexp64 (Z.pos (digits2_pos M) + E).
Let n := (e' - E)%Z.
Let m' := (Z.pos M / 2 ^ n)%Z.
Hypothesis Hle : (E <= e')%Z.
Variable m1 : Z.
Hypothesis Hm1 : m1 = m' \/ m1 = (m' + 1)%Z.
Hypothesis Hexact : (Z.pos M mod 2 ^ n = 0)%Z -> m1 = m'.
Hypothesis Hnorm : (-1074 < e' -> 2 ^ 52 <= m')%Z.

Variables (mg : positive) (eg : Z).
Hypothesis Cg : canonical mg eg.

Lemma n_nonneg : (0 <= n)%Z.
Proof. unfold n. lia. Qed.

Lemma M_decomp :
  (Z.pos M = 2 ^ n * m' + Z.pos M mod 2 ^ n)%Z
  /\ (0 <= Z.pos M mod 2 ^ n < 2 ^ n)%Z.
Proof.
  assert (P : (0 < 2 ^ n)%Z) by (apply Z.pow_pos_nonneg; [lia|apply n_nonneg]).
  split; [apply Z.div_mod; lia | apply Z.mod_pos_bound; exact P].
Qed.

Lemma exact_value : inject_Z (2 ^ n) * 2 ^ E == 2 ^ e'.
Proof.
  rewrite <- pow2_Z by apply n_nonneg. rewrite <- pow2_add.
  replace (n + E)%Z with e' by (unfold n; lia). reflexivity.
Qed.

(** The rounded mantissa stays below any canonical double above the exact
    value, and above any below it. *)
Lemma mag_upper :
  inject_Z (Z.pos M) * 2 ^ E <= inject_Z (Z.pos mg) * 2 ^ eg ->
  inject_Z m1 * 2 ^ e' <= inject_Z (Z.pos mg) * 2 ^ eg.
Proof.
  intros H. destruct M_decomp as [D B]. pose proof n_nonneg as Hn.
  assert (P : (0 < 2 ^ n)%Z) by (apply Z.pow_pos_nonneg; lia).
  destruct (canonical_bounds Cg) as (G1 & G2 & G3).
  destruct (Z_le_gt_dec e' eg) as [L|G].
  - apply scaled_le; [exact L|].
    apply scaled_le in H; [|lia].
    replace (eg - E)%Z with ((eg - e') + n)%Z in H by (unfold n; lia).
    rewrite Z.pow_add_r in H by lia.
    set (Gi := (Z.pos mg * 2 ^ (eg - e'))%Z) in *.
    assert (HG : (Z.pos M <= Gi * 2 ^ n)%Z) by (unfold Gi; lia).
    destruct Hm1 as [->| ->]; [nia|].
    destruct (Z_lt_le_dec m' Gi) as [Lt|Ge]; [lia|].
    assert (Z : (Z.pos M mod 2 ^ n = 0)%Z) by nia.
    pose proof (Hexact Z). lia.
  - exfalso. assert (N : (2 ^ 52 <= m')%Z) by (apply Hnorm; lia).
    assert (Q1 : 2 ^ 52 * 2 ^ e' <= inject_Z (Z.pos M) * 2 ^ E).
    { rewrite <- exact_value. pose proof (pow2_pos E).
      assert (inject_Z (2 ^ 52 * 2 ^ n) <= inject_Z (Z.pos M)) by (rewrite <- Zle_Qle; nia).
      rewrite inject_Z_mult in H1. change (inject_Z (2 ^ 52)) with (2 ^ 52) in H1. nra. }
    assert (Q2 : inject_Z (Z.pos mg) * 2 ^ eg < 2 ^ 52 * 2 ^ e').
    { pose proof (@pow2_le (eg + 1) e' ltac:(lia)) as P2.
      rewrite pow2_add in P2. change (2 ^ 1) with 2 in P2.
      assert (inject_Z (Z.pos mg) < 2 ^ 53)
        by (change (2 ^ 53) with (inject_Z (2 ^ 53)); rewrite <- Zlt_Qlt; exact G2).
      change (2 ^ 53) with (2 * 2 ^ 52) in H0.
      pose proof (pow2_pos eg). assert (0 < 2 ^ 52) by reflexivity. nra. }
    lra.
Qed.

Lemma mag_lower :
  inject_Z (Z.pos mg) * 2 ^ eg <= inject_Z (Z.pos M) * 2 ^ E ->
  inject_Z (Z.pos mg) * 2 ^ eg <= inject_Z m1 * 2 ^ e'.
Proof.
  intros H. destruct M_decomp as [D B]. pose proof n_nonneg as Hn.
  assert (P : (0 < 2 ^ n)%Z) by (apply Z.pow_pos_nonneg; lia).
  destruct (canonical_bounds Cg) as (G1 & G2 & G3).
  destruct (Z_le_gt_dec e' eg) as [L|G].
  - apply scaled_le'; [exact L|].
    apply scaled_le' in H; [|lia].
    replace (eg - E)%Z with ((eg - e') + n)%Z in H by (unfold n; lia).
    rewrite Z.pow_add_r in H by lia.
    set (Gi := (Z.pos mg * 2 ^ (eg - e'))%Z) in *.
    assert (Gi <= m')%Z by nia.
    destruct Hm1 as [->| ->]; lia.
  - assert (N : (2 ^ 52 <= m')%Z) by (apply Hnorm; lia).
    assert (N1 : (2 ^ 52 <= m1)%Z) by (destruct Hm1 as [->| ->]; lia).
    pose proof (@pow2_le (eg + 1) e' ltac:(lia)) as P2.
    rewrite pow2_add in P2. change (2 ^ 1) with 2 in P2.
    assert (inject_Z (Z.pos mg) < 2 ^ 53)
      by (change (2 ^ 53) with (inject_Z (2 ^ 53)); rewrite <- Zlt_Qlt; exact G2).
    change (2 ^ 53) with (2 * 2 ^ 52) in H0.
    assert (2 ^ 52 <= inject_Z m1)
      by (change (2 ^ 52) with (inject_Z (2 ^ 52)); rewrite <- Zle_Qle; exact N1).
    pose proof (pow2_pos eg). pose proof (pow2_pos e'). assert (0 < 2 ^ 52) by reflexivity. nra.
Qed.
End Magnitude.

(** Every finite double is below [2^1024]. *)
Lemma canonical_lt_max (mg : positive) (eg : Z) :
  canonical mg eg -> inject_Z (Z.pos mg) * 2 ^ eg < 2 ^ 1024.
Proof.
  intros C. destruct (canonical_bounds C) as (G1 & G2 & _). destruct C as [_ Cm].
  pose proof (@pow2_le eg 971 Cm) as P. pose proof (pow2_pos eg).
  assert (inject_Z (Z.pos mg) < 2 ^ 53)
    by (change (2 ^ 53) with (inject_Z (2 ^ 53)); rewrite <- Zlt_Qlt; exact G2).
  assert (0 < inject_Z (Z.pos mg)) by (change 0 with (inject_Z 0); rewrite <- Zlt_Qlt; lia).
  change (2 ^ 1024) with (2 ^ 53 * 2 ^ 971). 
  assert (0 < 2 ^ 53) by reflexivity. nra.
Qed.

Lemma mag_pos (m : positive) (e : Z) : 0 < inject_Z (Z.pos m) * 2 ^ e.
Proof.
  pose proof (pow2_pos e).
  assert (0 < inject_Z (Z.pos m)) by (change 0 with (inject_Z 0); rewrite <- Zlt_Qlt; lia).
  nra.
Qed.

(** Rounding keeps a value between any two floats that enclose it. *)
Lemma round_aux_enclosed (s : bool) (M : positive) (E : Z) (g1 g2 : spec_float) :
  (E <= fexp64 (Z.pos (digits2_pos M) + E))%Z ->
  valid_binary g1 = true -> valid_binary g2 = true ->
  SFfinite g1 = true -> SFfinite g2 = true ->
  SFval g1 <= sgn s * (inject_Z (Z.pos M) * 2 ^ E) ->
  sgn s * (inject_Z (Z.pos M) * 2 ^ E) <= SFval g2 ->
  SFfinite (binary_round_aux prec emax s (Z.pos M) E loc_Exact) = true
  /\ SFval g1 <= SFval (binary_round_aux prec emax s (Z.pos M) E loc_Exact)
  /\ SFval (binary_round_aux prec emax s (Z.pos M) E loc_Exact) <= SFval g2.
Proof.
  intros Hle V1 V2 F1 F2 L U.
  destruct (round_aux_char s M Hle) as (m1 & Hm1 & Hex & B & Hnorm & ->).
  set (e' := fexp64 (Z.pos (digits2_pos M) + E)) in *.
  assert (Hm1b : (0 <= m1 <= 2 ^ 53)%Z) by (destruct Hm1 as [->| ->]; lia).
  assert (Hn1 : (-1074 < e' -> 2 ^ 52 <= m1)%Z)
    by (intros X; specialize (Hnorm X); destruct Hm1 as [->| ->]; lia).
  pose proof (mag_pos M E) as Vpos.
  assert (W0 : 0 <= inject_Z m1 * 2 ^ e').
  { pose proof (pow2_pos e'). assert (0 <= inject_Z m1) by (change 0 with (inject_Z 0); rewrite <- Zle_Qle; lia). nra. }
  destruct s; unfold sgn in *.
  - (* negative value *)
    destruct g1 as [s1| | |s1 mg eg]; try discriminate F1;
      [cbn [SFval] in L; lra|].
    destruct s1; [|pose proof (mag_pos mg eg); rewrite SFval_finite in L; unfold sgn in L; lra].
    apply valid_finite in V1. rewrite SFval_finite in L. unfold sgn in L.
    assert (Up : inject_Z m1 * 2 ^ e' <= inject_Z (Z.pos mg) * 2 ^ eg).
    { apply (@mag_upper M E Hle m1 Hm1 Hex Hnorm mg eg V1). lra. }
    pose proof (canonical_lt_max V1) as Mx.
    destruct (pack_cases true Hm1b Hn1) as [[Fin Val]|[_ Ov]]; [|lra].
    split; [exact Fin|]. rewrite Val. unfold sgn. rewrite SFval_finite. unfold sgn.
    split; [lra|].
    destruct g2 as [s2| | |s2 m2 e2]; try discriminate F2; [cbn [SFval]; lra|].
    rewrite SFval_finite in *. unfold sgn in *.
    destruct s2; [|pose proof (mag_pos m2 e2); lra].
    apply valid_finite in V2.
    assert (inject_Z (Z.pos m2) * 2 ^ e2 <= inject_Z m1 * 2 ^ e').
    { apply (@mag_lower M E Hle m1 Hm1 Hex Hnorm m2 e2 V2). lra. }
    lra.
  - (* positive value *)
    destruct g2 as [s2| | |s2 mg eg]; try discriminate F2;
      [cbn [SFval] in U; lra|].
    destruct s2; [pose proof (mag_pos mg eg); rewrite SFval_finite in U; unfold sgn in U; lra|].
    apply valid_finite in V2. rewrite SFval_finite in U. unfold sgn in U.
    assert (Up : inject_Z m1 * 2 ^ e' <= inject_Z (Z.pos mg) * 2 ^ eg).
    { apply (@mag_upper M E Hle m1 Hm1 Hex Hnorm mg eg V2). lra. }
    pose proof (canonical_lt_max V2) as Mx.
    destruct (pack_cases false Hm1b Hn1) as [[Fin Val]|[_ Ov]]; [|lra].
    split; [exact Fin|]. rewrite Val. unfold sgn. rewrite SFval_finite. unfold sgn.
    split; [|lra].
    destruct g1 as [s1| | |s1 m2 e2]; try discriminate F1; [cbn [SFval]; lra|].
    rewrite SFval_finite in *. unfold sgn in *.
    destruct s1; [pose proof (mag_pos m2 e2); lra|].
    apply valid_finite in V1.
    assert (inject_Z (Z.pos m2) * 2 ^ e2 <= inject_Z m1 * 2 ^ e').
    { apply (@mag_lower M E Hle m1 Hm1 Hex Hnorm m2 e2 V1). lra. }
    lra.
Qed.

Local Open Scope Z_scope.

Lemma digits_unique (m : positive) (k : Z) :
  2 ^ (k - 1) <= Z.pos m < 2 ^ k -> Z.pos (digits2_pos m) = k.
Proof.
  intros [L U]. pose proof (digits_bounds m) as [D1 D2].
  set (d := Z.pos (digits2_pos m)) in *.
  assert (Hk : 0 < k).
  { destruct (Z_lt_le_dec 0 k); [assumption|].
    destruct k as [|p|p]; [simpl in U; lia|lia|].
    rewrite Z.pow_neg_r in U by lia. lia. }
  destruct (Z.lt_trichotomy d k) as [H|[H|H]]; [|exact H|].
  - assert (2 ^ d <= 2 ^ (k - 1)) by (apply Z.pow_le_mono_r; lia). lia.
  - assert (2 ^ k <= 2 ^ (d - 1)) by (apply Z.pow_le_mono_r; lia). lia.
Qed.

Lemma digits_mul (mx my : positive) :
  Z.pos (digits2_pos mx) + Z.pos (digits2_pos my) - 1
  <= Z.pos (digits2_pos (mx * my)).
Proof.
  pose proof (digits_bounds mx) as [X1 X2].
  pose proof (digits_bounds my) as [Y1 Y2].
  pose proof (digits_bounds (mx * my)) as [P1 P2].
  set (dx := Z.pos (digits2_pos mx)) in *.
  set (dy := Z.pos (digits2_pos my)) in *.
  set (d := Z.pos (digits2_pos (mx * my))) in *.
  rewrite Pos2Z.inj_mul in *.
  destruct (Z_le_gt_dec (dx + dy - 1) d) as [L|G]; [exact L|].
  exfalso.
  assert (2 ^ d <= 2 ^ (dx - 1 + (dy - 1))) by (apply Z.pow_le_mono_r; lia).
  rewrite Z.pow_add_r in H by lia.
  assert (0 < 2 ^ (dx - 1)) by (apply Z.pow_pos_nonneg; lia).
  assert (0 < 2 ^ (dy - 1)) by (apply Z.pow_pos_nonneg; lia).
  nia.
Qed.

(** The product of two canonical mantissas needs no left shift. *)
Lemma mul_precondition (mx my : positive) (ex ey : Z) :
  canonical mx ex -> canonical my ey ->
  ex + ey <= fexp64 (Z.pos (digits2_pos (mx * my)) + (ex + ey)).
Proof.
  intros [Cx _] [Cy _]. pose proof (digits_mul mx my).
  unfold fexp64 in *. lia.
Qed.

Lemma pack_valid (s : bool) (m1 e' : Z) :
  0 <= m1 <= 2 ^ 53 -> -1074 <= e' ->
  (-1074 < e' -> 2 ^ 52 <= m1) ->
  valid_binary (pack s m1 e') = true.
Proof.
  intros Hm He Hn. unfold pack.
  destruct (Z.eqb_spec m1 (2 ^ 53)) as [->|Hne].
  - destruct (Z.leb_spec (e' + 1) 971); [|reflexivity].
    apply valid_finite. split; [|assumption].
    change (Z.pos (digits2_pos (2 ^ 52))) with 53. unfold fexp64. lia.
  - destruct m1 as [|m|m]; [reflexivity| |lia].
    destruct (Z.leb_spec e' 971); [|reflexivity].
    apply valid_finite. split; [|assumption].
    destruct (Z.eq_dec e' (-1074)) as [->|Hd].
    + pose proof (@Zdigits2_le_53 (Z.pos m) ltac:(lia)) as D. cbn [Zdigits2] in D.
      unfold fexp64. lia.
    + rewrite (@digits_unique m 53) by (change (53 - 1) with 52; lia).
      unfold fexp64. lia.
Qed.

Lemma round_aux_valid (s : bool) (M : positive) (E : Z) :
  E <= fexp64 (Z.pos (digits2_pos M) + E) ->
  valid_binary (binary_round_aux prec emax s (Z.pos M) E loc_Exact) = true.
Proof.
  intros Hle.
  destruct (round_aux_char s M Hle) as (m1 & Hm1 & Hex & B & Hnorm & ->).
  apply pack_valid.
  - destruct Hm1 as [->| ->]; lia.
  - unfold fexp64. lia.
  - intros X. specialize (Hnorm X). destruct Hm1 as [->| ->]; lia.
Qed.

Local Open Scope Q_scope.

Lemma sgn_xorb (a b : bool) : sgn (xorb a b) == sgn a * sgn b.
Proof. destruct a, b; unfold sgn; cbn; ring. Qed.

(** *** The three operations

    A product, a sum or a difference of finite doubles, rounded, stays
    between any two finite doubles that enclose the exact result; in
    particular it does not overflow. *)
Lemma SFmul_enclosed (x y g1 g2 : spec_float) :
  valid_binary x = true -> valid_binary y = true ->
  SFfinite x = true -> SFfinite y = true ->
  valid_binary g1 = true -> valid_binary g2 = true ->
  SFfinite g1 = true -> SFfinite g2 = true ->
  SFval g1 <= SFval x * SFval y -> SFval x * SFval y <= SFval g2 ->
  SFfinite (SF64mul x y) = true
  /\ valid_binary (SF64mul x y) = true
  /\ SFval g1 <= SFval (SF64mul x y)
  /\ SFval (SF64mul x y) <= SFval g2.
Proof.
  intros Vx Vy Fx Fy V1 V2 F1 F2 L U. unfold SF64mul.
  destruct x as [sx| | |sx mx ex]; try discriminate Fx;
    destruct y as [sy| | |sy my ey]; try discriminate Fy; cbn [SFmul].
  1-3: cbn [SFval] in *; repeat split; try reflexivity; lra.
  apply valid_finite in Vx, Vy.
  pose proof (mul_precondition Vx Vy) as Pre.
  assert (Ev : sgn (xorb sx sy) * (inject_Z (Z.pos (mx * my)) * 2 ^ (ex + ey))
               == SFval (S754_finite sx mx ex) * SFval (S754_finite sy my ey)).
  { rewrite !SFval_finite, sgn_xorb, Pos2Z.inj_mul, inject_Z_mult, pow2_add. ring. }
  rewrite <- Ev in L, U.
  destruct (@round_aux_enclosed (xorb sx sy) (mx * my)%positive (ex + ey)%Z g1 g2 Pre V1 V2 F1 F2 L U)
    as (A & B & C).
  repeat split; try assumption. apply round_aux_valid, Pre.
Qed.

Local Open Scope Z_scope.

Lemma iter_xO (m d : positive) :
  Z.pos (Pos.iter xO m d) = Z.pos m * 2 ^ Z.pos d
  /\ Z.pos (digits2_pos (Pos.iter xO m d)) = Z.pos (digits2_pos m) + Z.pos d.
Proof.
  induction d as [|d [IH1 IH2]] using Pos.peano_ind.
  - cbn [Pos.iter digits2_pos]. rewrite Pos2Z.inj_xO, Pos2Z.inj_succ. lia.
  - rewrite Pos.iter_succ. cbn [digits2_pos].
    rewrite Pos2Z.inj_xO, !Pos2Z.inj_succ, IH1, IH2.
    rewrite Z.pow_succ_r by lia. lia.
Qed.

Lemma shl_align_spec (mx : positive) (ex ex' : Z) :
  snd (shl_align mx ex ex') = Z.min ex ex'
  /\ Z.pos (fst (shl_align mx ex ex')) = Z.pos mx * 2 ^ (ex - Z.min ex ex')
  /\ Z.pos (digits2_pos (fst (shl_align mx ex ex')))
     = Z.pos (digits2_pos mx) + (ex - Z.min ex ex').
Proof.
  unfold shl_align. destruct (ex' - ex) as [|p|p] eqn:D; cbn [fst snd].
  - replace (Z.min ex ex') with ex by lia. rewrite Z.sub_diag. cbn. lia.
  - replace (Z.min ex ex') with ex by lia. rewrite Z.sub_diag. cbn. lia.
  - replace (Z.min ex ex') with ex' by lia.
    replace (ex - ex') with (Z.pos p) by lia.
    destruct (iter_xO mx p) as [A B]. auto.
Qed.

Local Open Scope Q_scope.

Lemma binary_round_enclosed (s : bool) (m : positive) (e : Z)
    (g1 g2 : spec_float) :
  valid_binary g1 = true -> valid_binary g2 = true ->
  SFfinite g1 = true -> SFfinite g2 = true ->
  SFval g1 <= sgn s * (inject_Z (Z.pos m) * 2 ^ e) ->
  sgn s * (inject_Z (Z.pos m) * 2 ^ e) <= SFval g2 ->
  SFfinite (binary_round prec emax s m e) = true
  /\ valid_binary (binary_round prec emax s m e) = true
  /\ SFval g1 <= SFval (binary_round prec emax s m e)
  /\ SFval (binary_round prec emax s m e) <= SFval g2.
Proof.
  intros V1 V2 F1 F2 L U. unfold binary_round. rewrite fexp_fexp64.
  set (t := fexp64 (Z.pos (digits2_pos m) + e)).
  destruct (shl_align_spec m e t) as (S1 & S2 & S3).
  destruct (shl_align m e t) as [mz ez]. cbn [fst snd] in *.
  assert (Pre : (ez <= fexp64 (Z.pos (digits2_pos mz) + ez))%Z).
  { rewrite S3. replace (Z.pos (digits2_pos m) + (e - Z.min e t) + ez)%Z
      with (Z.pos (digits2_pos m) + e)%Z by lia. fold t. lia. }
  assert (Ev : inject_Z (Z.pos mz) * 2 ^ ez == inject_Z (Z.pos m) * 2 ^ e).
  { rewrite S2, inject_Z_mult. rewrite (@pow2_split ez e) by lia.
    rewrite <- S1. ring. }
  rewrite <- Ev in L, U.
  destruct (@round_aux_enclosed s mz ez g1 g2 Pre V1 V2 F1 F2 L U) as (A & B & C).
  repeat split; try assumption. apply round_aux_valid, Pre.
Qed.

Lemma binary_normalize_enclosed (z e : Z) (g1 g2 : spec_float) :
  valid_binary g1 = true -> valid_binary g2 = true ->
  SFfinite g1 = true -> SFfinite g2 = true ->
  SFval g1 <= inject_Z z * 2 ^ e -> inject_Z z * 2 ^ e <= SFval g2 ->
  SFfinite (binary_normalize prec emax z e false) = true
  /\ valid_binary (binary_normalize prec emax z e false) = true
  /\ SFval g1 <= SFval (binary_normalize prec emax z e false)
  /\ SFval (binary_normalize prec emax z e false) <= SFval g2.
Proof.
  intros V1 V2 F1 F2 L U. destruct z as [|p|p]; cbn [binary_normalize].
  - cbn [SFval SFfinite]. change (inject_Z 0) with 0 in *.
    repeat split; try reflexivity; lra.
  - apply binary_round_enclosed; try assumption; unfold sgn; lra.
  - apply binary_round_enclosed; try assumption; unfold sgn;
      change (inject_Z (Z.neg p)) with (- inject_Z (Z.pos p)) in *; lra.
Qed.

Lemma cond_Zopp_val (s : bool) (m : Z) :
  inject_Z (cond_Zopp s m) == sgn s * inject_Z m.
Proof.
  unfold cond_Zopp, sgn. destruct s; [rewrite inject_Z_opp|]; ring.
Qed.

Lemma aligned_val (s : bool) (m : positive) (e ez : Z) :
  (ez <= e)%Z ->
  inject_Z (cond_Zopp s (Z.pos (fst (shl_align m e ez)))) * 2 ^ ez
  == SFval (S754_finite s m e).
Proof.
  intros H. destruct (shl_align_spec m e ez) as (_ & S2 & _).
  rewrite cond_Zopp_val, S2, inject_Z_mult, SFval_finite.
  replace (Z.min e ez) with ez by lia.
  rewrite (@pow2_split ez e) by lia. ring.
Qed.

Lemma SFadd_enclosed (x y g1 g2 : spec_float) :
  valid_binary x = true -> valid_binary y = true ->
  SFfinite x = true -> SFfinite y = true ->
  valid_binary g1 = true -> valid_binary g2 = true ->
  SFfinite g1 = true -> SFfinite g2 = true ->
  SFval g1 <= SFval x + SFval y -> SFval x + SFval y <= SFval g2 ->
  SFfinite (SF64add x y) = true
  /\ valid_binary (SF64add x y) = true
  /\ SFval g1 <= SFval (SF64add x y)
  /\ SFval (SF64add x y) <= SFval g2.
Proof.
  intros Vx Vy Fx Fy V1 V2 F1 F2 L U. unfold SF64add.
  destruct x as [sx| | |sx mx ex]; try discriminate Fx;
    destruct y as [sy| | |sy my ey]; try discriminate Fy; cbn [SFadd].
  - destruct sx, sy; cbn [SFval SFfinite] in *; repeat split; try reflexivity; lra.
  - cbn [SFval SFfinite] in *. repeat split; try assumption; lra.
  - cbn [SFval SFfinite] in *. repeat split; try assumption; lra.
  - apply binary_normalize_enclosed; try assumption.
    + rewrite inject_Z_plus, Qmult_plus_distr_l.
      rewrite !aligned_val by lia. exact L.
    + rewrite inject_Z_plus, Qmult_plus_distr_l.
      rewrite !aligned_val by lia. exact U.
Qed.

Lemma SFsub_enclosed (x y g1 g2 : spec_float) :
  valid_binary x = true -> valid_binary y = true ->
  SFfinite x = true -> SFfinite y = true ->
  valid_binary g1 = true -> valid_binary g2 = true ->
  SFfinite g1 = true -> SFfinite g2 = true ->
  SFval g1 <= SFval x - SFval y -> SFval x - SFval y <= SFval g2 ->
  SFfinite (SF64sub x y) = true
  /\ valid_binary (SF64sub x y) = true
  /\ SFval g1 <= SFval (SF64sub x y)
  /\ SFval (SF64sub x y) <= SFval g2.
Proof.
  intros Vx Vy Fx Fy V1 V2 F1 F2 L U. unfold SF64sub.
  destruct x as [sx| | |sx mx ex]; try discriminate Fx;
    destruct y as [sy| | |sy my ey]; try discriminate Fy; cbn [SFsub].
  - destruct sx, sy; cbn [SFval SFfinite] in *; repeat split; try reflexivity; lra.
  - split; [reflexivity|]. split; [exact Vy|].
    rewrite SFval_finite in *. cbn [SFval] in *.
    unfold sgn in *. destruct sy; cbn [negb]; split; lra.
  - cbn [SFval SFfinite] in *. repeat split; try assumption; lra.
  - apply binary_normalize_enclosed; try assumption.
    + unfold Z.sub. rewrite inject_Z_plus, inject_Z_opp.
      setoid_replace ((inject_Z (cond_Zopp sx (Z.pos (fst (shl_align mx ex (Z.min ex ey)))))
                       + - inject_Z (cond_Zopp sy (Z.pos (fst (shl_align my ey (Z.min ex ey))))))
                      * 2 ^ Z.min ex ey)
        with (inject_Z (cond_Zopp sx (Z.pos (fst (shl_align mx ex (Z.min ex ey))))) * 2 ^ Z.min ex ey
              - inject_Z (cond_Zopp sy (Z.pos (fst (shl_align my ey (Z.min ex ey))))) * 2 ^ Z.min ex ey)
        by ring.
      rewrite !aligned_val by lia. exact L.
    + unfold Z.sub. rewrite inject_Z_plus, inject_Z_opp.
      setoid_replace ((inject_Z (cond_Zopp sx (Z.pos (fst (shl_align mx ex (Z.min ex ey)))))
                       + - inject_Z (cond_Zopp sy (Z.pos (fst (shl_align my ey (Z.min ex ey))))))
                      * 2 ^ Z.min ex ey)
        with (inject_Z (cond_Zopp sx (Z.pos (fst (shl_align mx ex (Z.min ex ey))))) * 2 ^ Z.min ex ey
              - inject_Z (cond_Zopp sy (Z.pos (fst (shl_align my ey (Z.min ex ey))))) * 2 ^ Z.min ex ey)
        by ring.
      rewrite !aligned_val by lia. exact U.
Qed.



(** The same for the primitive floats of [binary64]. *)
Lemma mul_enclosed (x y g1 g2 : float) :
  finite x = true -> finite y = true -> finite g1 = true -> finite g2 = true ->
  Fval g1 <= Fval x * Fval y -> Fval x * Fval y <= Fval g2 ->
  finite (x * y)%float = true
  /\ Fval g1 <= Fval (x * y)%float /\ Fval (x * y)%float <= Fval g2.
Proof.
  unfold finite, Fval. intros Fx Fy F1 F2 L U. rewrite mul_spec.
  destruct (@SFmul_enclosed (Prim2SF x) (Prim2SF y) (Prim2SF g1) (Prim2SF g2))
    as (A & _ & B & C); auto using Prim2SF_valid.
Qed.

Lemma add_enclosed (x y g1 g2 : float) :
  finite x = true -> finite y = true -> finite g1 = true -> finite g2 = true ->
  Fval g1 <= Fval x + Fval y -> Fval x + Fval y <= Fval g2 ->
  finite (x + y)%float = true
  /\ Fval g1 <= Fval (x + y)%float /\ Fval (x + y)%float <= Fval g2.
Proof.
  unfold finite, Fval. intros Fx Fy F1 F2 L U. rewrite add_spec.
  destruct (@SFadd_enclosed (Prim2SF x) (Prim2SF y) (Prim2SF g1) (Prim2SF g2))
    as (A & _ & B & C); auto using Prim2SF_valid.
Qed.

Lemma sub_enclosed (x y g1 g2 : float) :
  finite x = true -> finite y = true -> finite g1 = true -> finite g2 = true ->
  Fval g1 <= Fval x - Fval y -> Fval x - Fval y <= Fval g2 ->
  finite (x - y)%float = true
  /\ Fval g1 <= Fval (x - y)%float /\ Fval (x - y)%float <= Fval g2.
Proof.
  unfold finite, Fval. intros Fx Fy F1 F2 L U. rewrite sub_spec.
  destruct (@SFsub_enclosed (Prim2SF x) (Prim2SF y) (Prim2SF g1) (Prim2SF g2))
    as (A & _ & B & C); auto using Prim2SF_valid.
Qed.

(** The comparisons of finite doubles are those of their values. *)
Lemma compare_val (x y : float) :
  finite x = true -> finite y = true ->
  SFcompare (Prim2SF x) (Prim2SF y) = Some (Fval x ?= Fval y).
Proof.
  intros Fx Fy. apply SFcompare_val; auto using Prim2SF_valid.
Qed.

Lemma leb_val (x y : float) :
  finite x = true -> finite y = true ->
  ((x <=? y)%float = true <-> Fval x <= Fval y).
Proof.
  intros Fx Fy. rewrite leb_spec. unfold SFleb. rewrite (compare_val x y Fx Fy).
  rewrite Qle_alt. destruct (Fval x ?= Fval y); split; intros H; congruence.
Qed.

Lemma ltb_val (x y : float) :
  finite x = true -> finite y = true ->
  ((x <? y)%float = true <-> Fval x < Fval y).
Proof.
  intros Fx Fy. rewrite ltb_spec. unfold SFltb. rewrite (compare_val x y Fx Fy).
  rewrite Qlt_alt. destruct (Fval x ?= Fval y); split; intros H; congruence.
Qed.

(** A double the comparisons place between two finite doubles is finite:
    neither an infinity nor a NaN. *)
Lemma finite_between (a x b : float) :
  finite a = true -> finite b = true ->
  (a <=? x)%float = true -> (x <=? b)%float = true -> finite x = true.
Proof.
  unfold finite. rewrite !leb_spec. unfold SFleb.
  destruct (Prim2SF x) as [sx|sx| |sx mx ex]; try reflexivity;
    destruct (Prim2SF a) as [sa|sa| |sa ma ea]; try discriminate;
    destruct (Prim2SF b) as [sb|sb| |sb mb eb]; try discriminate;
    cbn [SFcompare SFfinite]; destruct sx; discriminate.
Qed.

(** *** Exact conversions

    A value whose mantissa fits the format is not changed by rounding. *)
Lemma round_aux_exact (s : bool) (M : positive) (E : Z) :
  (E <= fexp64 (Z.pos (digits2_pos M) + E))%Z ->
  (Z.pos M mod 2 ^ (fexp64 (Z.pos (digits2_pos M) + E) - E) = 0)%Z ->
  inject_Z (Z.pos M) * 2 ^ E < 2 ^ 1024 ->
  SFfinite (binary_round_aux prec emax s (Z.pos M) E loc_Exact) = true
  /\ SFval (binary_round_aux prec emax s (Z.pos M) E loc_Exact)
     == sgn s * (inject_Z (Z.pos M) * 2 ^ E).
Proof.
  intros Hle Hmod Hmax.
  destruct (round_aux_char s M Hle) as (m1 & Hm1 & Hex & B & Hnorm & ->).
  specialize (Hex Hmod). subst m1.
  set (e' := fexp64 (Z.pos (digits2_pos M) + E)) in *.
  destruct (@M_decomp M E Hle) as [D _]. fold e' in D. rewrite Hmod in D.
  assert (Ev : inject_Z (Z.pos M / 2 ^ (e' - E)) * 2 ^ e'
               == inject_Z (Z.pos M) * 2 ^ E).
  { pose proof (@exact_value M E Hle) as X. fold e' in X.
    assert (Y : inject_Z (Z.pos M)
                == inject_Z (2 ^ (e' - E)) * inject_Z (Z.pos M / 2 ^ (e' - E))).
    { rewrite <- inject_Z_mult. rewrite D at 1. rewrite Z.add_0_r. reflexivity. }
    rewrite Y, <- X. ring. }
  destruct (@pack_cases s (Z.pos M / 2 ^ (e' - E)) e' ltac:(lia) Hnorm)
    as [[Fin Val]|[_ Ov]]; [|lra].
  split; [exact Fin|]. rewrite Val, Ev. reflexivity.
Qed.

Lemma binary_round_valid (s : bool) (m : positive) (e : Z) :
  valid_binary (binary_round prec emax s m e) = true.
Proof.
  unfold binary_round. rewrite fexp_fexp64.
  set (t := fexp64 (Z.pos (digits2_pos m) + e)).
  destruct (shl_align_spec m e t) as (S1 & S2 & S3).
  destruct (shl_align m e t) as [mz ez]. cbn [fst snd] in *.
  apply round_aux_valid.
  rewrite S3. replace (Z.pos (digits2_pos m) + (e - Z.min e t) + ez)%Z
    with (Z.pos (digits2_pos m) + e)%Z by lia. fold t. lia.
Qed.

Lemma binary_normalize_valid (z e : Z) (sz : bool) :
  valid_binary (binary_normalize prec emax z e sz) = true.
Proof.
  destruct z; cbn [binary_normalize]; [reflexivity| |]; apply binary_round_valid.
Qed.

Lemma binary_round_exact (s : bool) (m : positive) (e : Z) :
  (fexp64 (Z.pos (digits2_pos m) + e) <= e)%Z ->
  inject_Z (Z.pos m) * 2 ^ e < 2 ^ 1024 ->
  SFfinite (binary_round prec emax s m e) = true
  /\ SFval (binary_round prec emax s m e) == sgn s * (inject_Z (Z.pos m) * 2 ^ e).
Proof.
  intros Ht Hmax. unfold binary_round. rewrite fexp_fexp64.
  set (t := fexp64 (Z.pos (digits2_pos m) + e)) in *.
  destruct (shl_align_spec m e t) as (S1 & S2 & S3).
  destruct (shl_align m e t) as [mz ez]. cbn [fst snd] in *.
  assert (Et : (Z.pos (digits2_pos mz) + ez = Z.pos (digits2_pos m) + e)%Z) by lia.
  assert (Ev : inject_Z (Z.pos mz) * 2 ^ ez == inject_Z (Z.pos m) * 2 ^ e).
  { rewrite S2, inject_Z_mult. rewrite (@pow2_split ez e) by lia.
    rewrite <- S1. ring. }
  rewrite <- Ev in *.
  apply round_aux_exact.
  - rewrite Et. fold t. lia.
  - rewrite Et. fold t. replace (t - ez)%Z with 0%Z by lia.
    apply Z.mod_1_r.
  - exact Hmax.
Qed.

(** [float(z)] is exact for integers below 2^53. *)
Lemma of_Z_exact (z : Z) :
  (Z.abs z < 2 ^ 53)%Z ->
  finite (Binary64.of_Z z) = true /\ Fval (Binary64.of_Z z) == inject_Z z.
Proof.
  intros Hz. unfold finite, Fval, Binary64.of_Z.
  rewrite Prim2SF_SF2Prim by apply binary_normalize_valid.
  destruct z as [|p|p]; cbn [binary_normalize].
  - split; reflexivity.
  - destruct (@binary_round_exact false p 0) as [A B].
    + pose proof (@Zdigits2_le_53 (Z.pos p) ltac:(lia)) as D. cbn [Zdigits2] in D.
      unfold fexp64. lia.
    + change (2 ^ 0) with 1. rewrite Qmult_1_r.
      apply Qlt_trans with (2 ^ 53); [|reflexivity].
      change (2 ^ 53) with (inject_Z (2 ^ 53)). rewrite <- Zlt_Qlt. lia.
    + split; [exact A|]. rewrite B. unfold sgn. change (2 ^ 0) with 1. ring.
  - destruct (@binary_round_exact true p 0) as [A B].
    + pose proof (@Zdigits2_le_53 (Z.pos p) ltac:(lia)) as D. cbn [Zdigits2] in D.
      unfold fexp64. lia.
    + change (2 ^ 0) with 1. rewrite Qmult_1_r.
      apply Qlt_trans with (2 ^ 53); [|reflexivity].
      change (2 ^ 53) with (inject_Z (2 ^ 53)). rewrite <- Zlt_Qlt. lia.
    + split; [exact A|]. rewrite B. unfold sgn. change (2 ^ 0) with 1.
      change (inject_Z (Z.neg p)) with (- inject_Z (Z.pos p)). ring.
Qed.

Local Close Scope Z_scope.

Local Open Scope Q_scope.

(** *** Consequences used for the program *)
Lemma Fval_0 : finite 0%float = true /\ Fval 0%float == 0.
Proof. split; reflexivity. Qed.

Lemma Fval_1 : finite 1%float = true /\ Fval 1%float == 1.
Proof. split; vm_compute; reflexivity. Qed.

(** A draw the comparisons place in [0, 1] is a finite double with a value
    in [0, 1]. *)
Lemma draw_in_unit (r : float) :
  (0 <=? r)%float = true -> (r <=? 1)%float = true ->
  finite r = true /\ 0 <= Fval r /\ Fval r <= 1.
Proof.
  intros H0 H1. destruct Fval_0 as [F0 V0]. destruct Fval_1 as [F1 V1].
  assert (Fr : finite r = true) by (apply (finite_between F0 F1 H0 H1)).
  split; [exact Fr|]. rewrite <- V0 at 1. rewrite <- V1.
  split; apply leb_val; assumption.
Qed.

(** [dyadic j e] is the double of value [j * 2^e]. *)
Lemma dyadic_exact (j e : Z) :
  (Z.abs j < 2 ^ 53)%Z -> (-1074 <= e <= 900)%Z ->
  finite (dyadic j e) = true /\ Fval (dyadic j e) == inject_Z j * 2 ^ e.
Proof.
  intros Hj He. unfold finite, Fval, dyadic.
  rewrite Prim2SF_SF2Prim by apply binary_normalize_valid.
  assert (B : forall p : positive,
             (Z.pos p < 2 ^ 53)%Z ->
             (fexp64 (Z.pos (digits2_pos p) + e) <= e)%Z
             /\ inject_Z (Z.pos p) * 2 ^ e < 2 ^ 1024).
  { intros p Hp. split.
    - pose proof (@Zdigits2_le_53 (Z.pos p) ltac:(lia)) as D. cbn [Zdigits2] in D.
      unfold fexp64. lia.
    - pose proof (@pow2_le e 900 ltac:(lia)) as P. pose proof (pow2_pos e).
      assert (inject_Z (Z.pos p) < 2 ^ 53)
        by (change ((2:Q) ^ 53) with (inject_Z (2 ^ 53)); rewrite <- Zlt_Qlt; exact Hp).
      assert (0 < inject_Z (Z.pos p)) by (change 0 with (inject_Z 0); rewrite <- Zlt_Qlt; lia).
      assert (X : (2:Q) ^ 53 * 2 ^ 900 < 2 ^ 1024) by reflexivity.
      assert ((0:Q) < 2 ^ 53) by reflexivity. nra. }
  destruct j as [|p|p]; cbn [binary_normalize].
  - split; [reflexivity|]. cbn [SFval]. change (inject_Z 0) with 0. ring.
  - destruct (B p ltac:(lia)) as [B1 B2].
    destruct (@binary_round_exact false p e B1 B2) as [X Y].
    split; [exact X|]. rewrite Y. unfold sgn. ring.
  - destruct (B p ltac:(lia)) as [B1 B2].
    destruct (@binary_round_exact true p e B1 B2) as [X Y].
    split; [exact X|]. rewrite Y. unfold sgn.
    change (inject_Z (Z.neg p)) with (- inject_Z (Z.pos p)). ring.
Qed.

(** Between [x] and [x + 2 * 2^-n] lie two consecutive multiples of
    [2^-n]. *)
Lemma two_multiples (x : Q) (n : Z) :
  x <= inject_Z (Qceiling (x * 2 ^ n)) * 2 ^ (- n)
  /\ inject_Z (Qceiling (x * 2 ^ n) + 1) * 2 ^ (- n) < x + 2 * 2 ^ (- n).
Proof.
  pose proof (Qle_ceiling (x * 2 ^ n)) as C1.
  pose proof (Qceiling_lt (x * 2 ^ n)) as C2.
  set (j := Qceiling (x * 2 ^ n)) in *.
  pose proof (pow2_pos n) as P. pose proof (pow2_pos (- n)) as P'.
  assert (I : (2:Q) ^ n * 2 ^ (- n) == 1).
  { rewrite <- pow2_add. replace (n + - n)%Z with 0%Z by lia. reflexivity. }
  assert (C3 : inject_Z j - 1 < x * 2 ^ n).
  { unfold Z.sub in C2. rewrite inject_Z_plus, inject_Z_opp in C2.
    change (inject_Z 1) with 1 in C2. lra. }
  rewrite inject_Z_plus. change (inject_Z 1) with 1.
  set (J := inject_Z j) in *. set (p := (2:Q) ^ n) in *.
  set (p' := (2:Q) ^ (- n)) in *.
  assert (X : x == x * p * p') by (rewrite <- Qmult_assoc, I; ring).
  split.
  - rewrite X at 1. apply Qmult_le_compat_r; lra.
  - setoid_replace (x + 2 * p') with ((x * p + 2) * p')
      by (rewrite Qmult_plus_distr_l, <- X; ring).
    apply Qmult_lt_compat_r; lra.
Qed.

(** A lifetime [L] that lies within one step of 0.001 of [0.001 * K], and
    whose time left is computed as not positive at [K], is computed as
    positive exactly before [K]: the product [0.001 * k] is monotone in [k]
    up to rounding, and the bounds [g] and [h] separate the cases. *)
Lemma alive_switch (L g h : float) (K k : Z) :
  finite L = true -> finite g = true -> finite h = true ->
  (Z.abs K < 2 ^ 52)%Z -> (Z.abs k < 2 ^ 53)%Z ->
  0 <= Fval L -> Fval L <= 8 ->
  Fval 0.001%float * inject_Z (K - 1) <= Fval g ->
  0 < Fval h -> Fval h <= Fval L - Fval g ->
  Fval L <= Fval 0.001%float * inject_Z (K + 1) ->
  (0 <? L - 0.001 * Binary64.of_Z K)%float = false ->
  (0 <? L - 0.001 * Binary64.of_Z k)%float = (k <? K)%Z.
Proof.
  intros FL Fg Fh HK Hk L0 L8 Hg Hh0 Hh HL HatK.
  destruct Fval_0 as [F0 V0].
  destruct (@of_Z_exact k Hk) as [Fk Vk].
  assert (Fc : finite 0.001%float = true) by reflexivity.
  assert (C0 : 0 < Fval 0.001%float) by (vm_compute; reflexivity).
  assert (C1 : Fval 0.001%float * 2 ^ 53 <= 2 ^ 44) by (vm_compute; discriminate).
  assert (Fp : finite 17592186044416%float = true) by reflexivity.
  assert (Vp : Fval 17592186044416%float == 2 ^ 44) by (vm_compute; reflexivity).
  assert (Fn : finite (-17592186044416)%float = true) by reflexivity.
  assert (Vn : Fval (-17592186044416)%float == - 2 ^ 44) by (vm_compute; reflexivity).
  assert (Fp' : finite 35184372088832%float = true) by reflexivity.
  assert (Vp' : Fval 35184372088832%float == 2 ^ 45) by (vm_compute; reflexivity).
  assert (Fn' : finite (-35184372088832)%float = true) by reflexivity.
  assert (Vn' : Fval (-35184372088832)%float == - 2 ^ 45) by (vm_compute; reflexivity).
  assert (E45 : (2:Q) ^ 45 == 2 * 2 ^ 44) by reflexivity.
  assert (P44 : (0:Q) < 2 ^ 44) by reflexivity.
  assert (Kb : - 2 ^ 53 <= inject_Z k /\ inject_Z k <= 2 ^ 53).
  { change ((2:Q) ^ 53) with (inject_Z (2 ^ 53)). rewrite <- inject_Z_opp, <- !Zle_Qle. lia. }
  destruct Kb as [Kb1 Kb2].
  destruct (Z.ltb_spec k K) as [Lt|Ge].
  - assert (inject_Z k <= inject_Z (K - 1)) by (rewrite <- Zle_Qle; lia).
    destruct (@mul_enclosed 0.001%float (Binary64.of_Z k) (-17592186044416)%float g)
      as (Fy & Y1 & Y2); try assumption; try (rewrite ?Vn, ?Vk; nra).
    set (y := (0.001 * Binary64.of_Z k)%float) in *.
    destruct (@sub_enclosed L y h 35184372088832%float) as (Ft & T1 & T2);
      try assumption; try (rewrite ?Vn, ?Vp' in *; lra).
    apply ltb_val; [exact F0|exact Ft|]. lra.
  - destruct (Z.eq_dec k K) as [->|Ne]; [exact HatK|].
    assert (inject_Z (K + 1) <= inject_Z k) by (rewrite <- Zle_Qle; lia).
    destruct (@mul_enclosed 0.001%float (Binary64.of_Z k) L 17592186044416%float)
      as (Fy & Y1 & Y2); try assumption; try (rewrite ?Vp, ?Vk; nra).
    set (y := (0.001 * Binary64.of_Z k)%float) in *.
    destruct (@sub_enclosed L y (-35184372088832)%float 0%float) as (Ft & T1 & T2);
      try assumption; try (rewrite ?Vn', ?Vp, ?V0 in *; lra).
    apply not_true_is_false. intros C.
    apply ltb_val in C; [|exact F0|exact Ft]. lra.
Qed.


Lemma ceiling_bound (x : Q) (B : Z) :
  inject_Z (- B) <= x -> x <= inject_Z B ->
  (- B <= Qceiling x <= B)%Z.
Proof.
  intros L U. split.
  - rewrite <- (Qceiling_Z (- B)). apply Qceiling_resp_le, L.
  - rewrite <- (Qceiling_Z B). apply Qceiling_resp_le, U.
Qed.

(** In the doubles of the program the time left strictly decreases from one
    millisecond to any later one, for lifetimes up to 2^20 seconds and
    clock readings within 2^40 ms of the creation. *)
Lemma time_left_strict_binary64 (L : float) (k1 k2 : Z) :
  finite L = true ->
  - 2 ^ 20 <= Fval L -> Fval L <= 2 ^ 20 ->
  (k1 < k2)%Z -> (Z.abs k1 < 2 ^ 40)%Z -> (Z.abs k2 < 2 ^ 40)%Z ->
  (L - 0.001 * Binary64.of_Z k2 <? L - 0.001 * Binary64.of_Z k1)%float = true.
Proof.
  intros FL L0 L1 Hlt Hk1 Hk2.
  destruct (@of_Z_exact k1 ltac:(lia)) as [F1 V1].
  destruct (@of_Z_exact k2 ltac:(lia)) as [F2 V2].
  assert (Fc : finite 0.001%float = true) by reflexivity.
  set (c := Fval 0.001%float) in *.
  assert (C0 : 2 * 2 ^ (- (11)) < c) by (vm_compute; reflexivity).
  assert (C1 : c * 2 ^ 40 < 2 ^ 31) by (vm_compute; reflexivity).
  assert (C2 : c * 2 ^ 40 * 2 ^ 11 < inject_Z (2 ^ 42)) by (vm_compute; reflexivity).
  assert (Cpos : 0 < c) by (vm_compute; reflexivity).
  assert (P11 : (0:Q) < 2 ^ 11) by reflexivity.
  assert (P12 : (0:Q) < 2 ^ 12) by reflexivity.
  assert (Pm11 : (0:Q) < 2 ^ (- (11))) by reflexivity.
  assert (Pm12 : (2:Q) * 2 ^ (- (12)) == 2 ^ (- (11))) by reflexivity.
  assert (Pm12' : (0:Q) < 2 ^ (- (12))) by reflexivity.
  assert (Flo : finite (-2147483648)%float = true) by reflexivity.
  assert (Vlo : Fval (-2147483648)%float == - 2 ^ 31) by (vm_compute; reflexivity).
  assert (Fhi : finite 2147483648%float = true) by reflexivity.
  assert (Vhi : Fval 2147483648%float == 2 ^ 31) by (vm_compute; reflexivity).
  assert (Flo' : finite (-8589934592)%float = true) by reflexivity.
  assert (Vlo' : Fval (-8589934592)%float == - 2 ^ 33) by (vm_compute; reflexivity).
  assert (Fhi' : finite 8589934592%float = true) by reflexivity.
  assert (Vhi' : Fval 8589934592%float == 2 ^ 33) by (vm_compute; reflexivity).
  assert (N31 : (2:Q) ^ 33 == 4 * 2 ^ 31) by reflexivity.
  assert (N20 : (2:Q) ^ 20 < 2 ^ 31) by reflexivity.
  assert (P31 : (0:Q) < 2 ^ 31) by reflexivity.
  assert (P40 : (0:Q) < 2 ^ 40) by reflexivity.
  assert (K1 : - 2 ^ 40 <= inject_Z k1 /\ inject_Z k1 <= 2 ^ 40).
  { change ((2:Q) ^ 40) with (inject_Z (2 ^ 40)). rewrite <- inject_Z_opp, <- !Zle_Qle. lia. }
  assert (K2 : - 2 ^ 40 <= inject_Z k2 /\ inject_Z k2 <= 2 ^ 40).
  { change ((2:Q) ^ 40) with (inject_Z (2 ^ 40)). rewrite <- inject_Z_opp, <- !Zle_Qle. lia. }
  assert (K12 : inject_Z k1 + 1 <= inject_Z k2).
  { change 1 with (inject_Z 1). rewrite <- inject_Z_plus, <- Zle_Qle. lia. }
  destruct K1 as [K1a K1b]. destruct K2 as [K2a K2b].
  (* two multiples of 2^-11 between the exact products *)
  set (q1 := c * inject_Z k1).
  destruct (two_multiples q1 11) as [J1 J2].
  change (- (11))%Z with (-11)%Z in *.
  set (J := Qceiling (q1 * 2 ^ 11)) in *.
  assert (JB : (- 2 ^ 42 <= J <= 2 ^ 42)%Z).
  { apply ceiling_bound; [rewrite inject_Z_opp|]; unfold q1; nra. }
  destruct (@dyadic_exact J (-11) ltac:(lia) ltac:(lia)) as [Fs1 Vs1].
  destruct (@dyadic_exact (J + 1) (-11) ltac:(lia) ltac:(lia)) as [Fs2 Vs2].
  assert (Q1 : - 2 ^ 31 <= q1 /\ q1 <= 2 ^ 31) by (unfold q1; split; nra).
  assert (Q2 : q1 + c <= c * inject_Z k2) by (unfold q1; nra).
  assert (E1 : Fval (-2147483648)%float <= Fval 0.001%float * Fval (Binary64.of_Z k1))
    by (fold c; rewrite Vlo, V1; fold q1; lra).
  assert (E2 : Fval 0.001%float * Fval (Binary64.of_Z k1) <= Fval (dyadic J (-11)))
    by (fold c; rewrite Vs1, V1; fold q1; lra).
  destruct (@mul_enclosed _ _ _ _ Fc F1 Flo Fs1 E1 E2) as (Fy1 & Y1a & Y1b).
  assert (E3 : Fval (dyadic (J + 1) (-11)) <= Fval 0.001%float * Fval (Binary64.of_Z k2))
    by (fold c; rewrite Vs2, V2; lra).
  assert (E4 : Fval 0.001%float * Fval (Binary64.of_Z k2) <= Fval 2147483648%float)
    by (fold c; rewrite Vhi, V2; nra).
  destruct (@mul_enclosed _ _ _ _ Fc F2 Fs2 Fhi E3 E4) as (Fy2 & Y2a & Y2b).
  set (y1 := (0.001 * Binary64.of_Z k1)%float) in *.
  set (y2 := (0.001 * Binary64.of_Z k2)%float) in *.
  rewrite Vlo in Y1a. rewrite Vs1 in Y1b. rewrite Vs2 in Y2a. rewrite Vhi in Y2b.
  assert (Gap : Fval y1 + 2 ^ (-11) <= Fval y2).
  { rewrite inject_Z_plus in Y2a. change (inject_Z 1) with 1 in Y2a. lra. }
  (* two multiples of 2^-12 between the exact differences *)
  set (a2 := Fval L - Fval y2).
  destruct (two_multiples a2 12) as [I1 I2].
  change (- (12))%Z with (-12)%Z in *.
  set (I := Qceiling (a2 * 2 ^ 12)) in *.
  assert (IB : (- 2 ^ 45 <= I <= 2 ^ 45)%Z).
  { assert ((2:Q) ^ 32 * 2 ^ 12 <= inject_Z (2 ^ 45)) by (vm_compute; discriminate).
    assert ((2:Q) ^ 32 == 2 * 2 ^ 31) by reflexivity.
    assert (- 2 ^ 32 <= a2 /\ a2 <= 2 ^ 32) by (unfold a2; split; lra).
    apply ceiling_bound; [rewrite inject_Z_opp|]; nra. }
  destruct (@dyadic_exact I (-12) ltac:(lia) ltac:(lia)) as [Fu1 Vu1].
  destruct (@dyadic_exact (I + 1) (-12) ltac:(lia) ltac:(lia)) as [Fu2 Vu2].
  assert (E5 : Fval (-8589934592)%float <= Fval L - Fval y2)
    by (rewrite Vlo'; lra).
  assert (E6 : Fval L - Fval y2 <= Fval (dyadic I (-12)))
    by (rewrite Vu1; fold a2; lra).
  destruct (@sub_enclosed _ _ _ _ FL Fy2 Flo' Fu1 E5 E6) as (Ft2 & T2a & T2b).
  assert (E7 : Fval (dyadic (I + 1) (-12)) <= Fval L - Fval y1)
    by (rewrite Vu2; unfold a2 in *; lra).
  assert (E8 : Fval L - Fval y1 <= Fval 8589934592%float)
    by (rewrite Vhi'; lra).
  destruct (@sub_enclosed _ _ _ _ FL Fy1 Fu2 Fhi' E7 E8) as (Ft1 & T1a & T1b).
  apply ltb_val; [exact Ft2|exact Ft1|].
  rewrite Vu1 in T2b. rewrite Vu2 in T1a.
  rewrite inject_Z_plus in T1a. change (inject_Z 1) with 1 in T1a. lra.
Qed.

End Rounding.

(* ================================================================= *)
(** ** The difficulty curves *)

Section Curves.
Context {F : Type} {PF : PyFloat F}.
Local Open Scope py_scope.

(** The three branches of both curves, in any arithmetic. *)
Lemma curves_by_cases (score : Z) :
  ((score <= 5)%Z ->
     minimum_spawn_time_seconds score = lit 1.0
     /\ lifetime_from_score score = lit 7.0)
  /\ ((score >= 20)%Z ->
     minimum_spawn_time_seconds score = lit 0.1
     /\ lifetime_from_score score = lit 1.0)
  /\ ((5 < score < 20)%Z ->
     minimum_spawn_time_seconds score = lit 1.2 - lit 0.06 * of_int score
     /\ lifetime_from_score score = lit 9.0 - lit 0.4 * of_int score).
Proof.
  split; [|split]; intros H; split; by_score score;
    try lia; reflexivity.
Qed.
End Curves.

(** C4.  For every integer score both curves are the constant 1.0 / 7.0 up
    to score 5, the constant 0.1 / 1.0 from score 20 on, and the linear
    formulas 1.2 - 0.06*score and 9.0 - 0.4*score strictly between; stated
    for the doubles the program computes with, and for exact rationals. *)
Theorem difficulty_curves_piecewise (score : Z) :
  ((score <= 5)%Z ->
     minimum_spawn_time_seconds (F := float) score = 1.0%float
     /\ lifetime_from_score (F := float) score = 7.0%float
     /\ minimum_spawn_time_seconds (F := Q) score == 1.0
     /\ lifetime_from_score (F := Q) score == 7.0)
  /\ ((score >= 20)%Z ->
     minimum_spawn_time_seconds (F := float) score = 0.1%float
     /\ lifetime_from_score (F := float) score = 1.0%float
     /\ minimum_spawn_time_seconds (F := Q) score == 0.1
     /\ lifetime_from_score (F := Q) score == 1.0)
  /\ ((5 < score < 20)%Z ->
     minimum_spawn_time_seconds (F := float) score
       = (1.2 - 0.06 * Binary64.of_Z score)%float
     /\ lifetime_from_score (F := float) score
       = (9.0 - 0.4 * Binary64.of_Z score)%float
     /\ minimum_spawn_time_seconds (F := Q) score
       == 1.2 - 0.06 * inject_Z score
     /\ lifetime_from_score (F := Q) score == 9.0 - 0.4 * inject_Z score).
Proof.
  destruct (curves_by_cases (F := float) score) as (L1 & H1 & M1).
  destruct (curves_by_cases (F := Q) score) as (L2 & H2 & M2).
  split; [|split]; intros H.
  - destruct (L1 H) as [-> ->]. destruct (L2 H) as [-> ->].
    repeat split; reflexivity.
  - destruct (H1 H) as [-> ->]. destruct (H2 H) as [-> ->].
    repeat split; reflexivity.
  - destruct (M1 H) as [-> ->]. destruct (M2 H) as [-> ->].
    repeat split; reflexivity.
Qed.

(** Scenario C: both curves are clamped at score 25. *)
Example scenario_C :
  minimum_spawn_time_seconds (F := float) 25 = 0.1%float
  /\ lifetime_from_score (F := float) 25 = 1.0%float.
Proof. split; reflexivity. Qed.

(** The values of both curves around and between the breakpoints, as the
    program computes them. *)
Example curves_binary64_table :
  map (fun s => (minimum_spawn_time_seconds (F := float) s,
                 lifetime_from_score (F := float) s))
      [5; 6; 12; 18; 19; 20]%Z
  = [ (1.0, 7.0); (0.84, 6.6);
      (0.48, 4.199999999999999);
      (0.11999999999999988, 1.7999999999999998);
      (0.06000000000000005, 1.3999999999999995);
      (0.1, 1.0) ]%float.
Proof. vm_compute. reflexivity. Qed.

Lemma middle_score_as_rational (s : Z) :
  (5 < s < 20)%Z -> 6 <= inject_Z s <= 19.
Proof.
  intros [H1 H2]. split.
  - change 6 with (inject_Z 6). rewrite <- Zle_Qle. lia.
  - change 19 with (inject_Z 19). rewrite <- Zle_Qle. lia.
Qed.

(** Both curves stay within their clamps, in exact arithmetic. *)
Lemma curves_bounded_exact (score : Z) :
  (1 <= lifetime_from_score (F := Q) score
   /\ lifetime_from_score (F := Q) score <= 7)
  /\ (0.06 <= minimum_spawn_time_seconds (F := Q) score
      /\ minimum_spawn_time_seconds (F := Q) score <= 1).
Proof.
  by_score score; exact_arith.
  1, 2: repeat split; lra.
  pose proof (@middle_score_as_rational score ltac:(lia)) as [? ?].
  repeat split; lra.
Qed.

(** ... and as the program computes them. *)
Lemma curves_bounded_binary64 (score : Z) :
  ((1.0 <=? lifetime_from_score (F := float) score)%float = true
   /\ (lifetime_from_score (F := float) score <=? 7.0)%float = true)
  /\ ((0.06 <=? minimum_spawn_time_seconds (F := float) score)%float = true
      /\ (minimum_spawn_time_seconds (F := float) score <=? 1.0)%float
         = true).
Proof.
  destruct (Z.leb_spec score 5) as [H5|H5].
  - unfold minimum_spawn_time_seconds, lifetime_from_score.
    rewrite (proj2 (Z.leb_le score 5) H5). vm_compute. auto.
  - destruct (Z.geb_spec score 20) as [H20|H20].
    + unfold minimum_spawn_time_seconds, lifetime_from_score.
      rewrite (proj2 (Z.leb_gt score 5) H5).
      rewrite (proj2 (Z.geb_le score 20)) by lia. vm_compute. auto.
    + each_middle_score score.
Qed.

(** The lifetime curve never rises with the score. *)
Lemma lifetime_from_score_monotone (s1 s2 : Z) :
  (s1 < s2)%Z ->
  lifetime_from_score (F := Q) s2 <= lifetime_from_score (F := Q) s1.
Proof.
  intros H.
  assert (Hq : inject_Z s1 < inject_Z s2) by (rewrite <- Zlt_Qlt; lia).
  unfold lifetime_from_score.
  destruct (Z.leb_spec s1 5) as [?|?]; destruct (Z.leb_spec s2 5) as [?|?];
    destruct (Z.geb_spec s1 20) as [?|?]; destruct (Z.geb_spec s2 20) as [?|?];
    try lia; exact_arith; try lra.
  - pose proof (@middle_score_as_rational s2 ltac:(lia)) as [? ?]. lra.
  - pose proof (@middle_score_as_rational s1 ltac:(lia)) as [? ?]. lra.
Qed.

(** The spawn curve never rises either, as long as the two scores lie on the
    same side of the breakpoint at 20. *)
Lemma minimum_spawn_time_monotone_apart_from_20 (s1 s2 : Z) :
  (s1 < s2)%Z -> (s2 < 20 \/ 20 <= s1)%Z ->
  minimum_spawn_time_seconds (F := Q) s2
  <= minimum_spawn_time_seconds (F := Q) s1.
Proof.
  intros H Hside.
  assert (Hq : inject_Z s1 < inject_Z s2) by (rewrite <- Zlt_Qlt; lia).
  unfold minimum_spawn_time_seconds.
  destruct (Z.leb_spec s1 5) as [?|?]; destruct (Z.leb_spec s2 5) as [?|?];
    destruct (Z.geb_spec s1 20) as [?|?]; destruct (Z.geb_spec s2 20) as [?|?];
    try lia; exact_arith; try lra.
  pose proof (@middle_score_as_rational s2 ltac:(lia)) as [? ?]. lra.
Qed.

(** C2.  The spawn curve is not monotonically decreasing across the
    breakpoint at score 20: the linear branch has come down to 0.06 at score
    19, and the clamp puts the curve back up at 0.1 from score 20 on.  Both
    as the program computes it and in exact arithmetic,
    minimum_spawn_time_seconds(19) < minimum_spawn_time_seconds(20). *)
Theorem minimum_spawn_time_rises_at_20 :
  minimum_spawn_time_seconds (F := float) 19 = 0.06000000000000005%float
  /\ minimum_spawn_time_seconds (F := float) 20 = 0.1%float
  /\ (minimum_spawn_time_seconds (F := float) 19
      <? minimum_spawn_time_seconds (F := float) 20)%float = true
  /\ minimum_spawn_time_seconds (F := Q) 19 == 0.06
  /\ minimum_spawn_time_seconds (F := Q) 20 == 0.1
  /\ minimum_spawn_time_seconds (F := Q) 19
     < minimum_spawn_time_seconds (F := Q) 20.
Proof.
  repeat split; vm_compute; reflexivity.
Qed.

(* ================================================================= *)
(** ** The timer of a box *)

(** C5, as stated, fails on the program: the late query of scenario B does
    not return the double -0.1.  The product 0.001 * 7100 rounds to
    7.1000000000000005, so Python's [==] against -0.1 is false. *)
Lemma scenario_B_late_query_is_not_minus_one_tenth :
  (0.001 * 7100 = 7.1000000000000005)%float
  /\ time_left_seconds (F := float) 8100 scenario_B
     = (-0.10000000000000053)%float
  /\ (time_left_seconds (F := float) 8100 scenario_B =? -0.1)%float = false.
Proof. repeat split; vm_compute; reflexivity. Qed.

(** C5, amended.  [time_left_seconds] is the lifetime minus the elapsed
    milliseconds converted to seconds, and may be negative.  For the box of
    scenario B the query at 1500 ms returns 6.5 exactly; the query at 8100 ms
    returns -0.1 in exact arithmetic, and in the doubles of the program a
    negative value within 1e-15 of -0.1. *)
Theorem time_left_seconds_value :
  (forall (now : Z) (self : Box float),
      time_left_seconds now self
      = (lifetime self
         - 0.001 * Binary64.of_Z (now - created_at_timestamp_ms self))%float)
  /\ (forall (now : Z) (self : Box Q),
      time_left_seconds now self
      == lifetime self
         - inject_Z (now - created_at_timestamp_ms self) / 1000)
  /\ time_left_seconds (F := float) 1500 scenario_B = 6.5%float
  /\ (time_left_seconds (F := float) 8100 scenario_B <? 0)%float = true
  /\ (abs (time_left_seconds (F := float) 8100 scenario_B - -0.1)
      <? 1e-15)%float = true
  /\ time_left_seconds (F := Q) 1500 scenario_B == 6.5
  /\ time_left_seconds (F := Q) 8100 scenario_B == -0.1.
Proof.
  split; [|split].
  - intros now self. reflexivity.
  - intros now self. unfold time_left_seconds, SECONDS_PR_MILLISECONDS.
    exact_arith. field.
  - repeat split; vm_compute; reflexivity.
Qed.

(** Scenario B: the box is alive at the early query and not at the late
    one, in both arithmetics. *)
Example scenario_B_alive :
  alive (F := float) 1500 scenario_B = true
  /\ alive (F := float) 8100 scenario_B = false
  /\ alive (F := Q) 1500 scenario_B = true
  /\ alive (F := Q) 8100 scenario_B = false.
Proof. repeat split; vm_compute; reflexivity. Qed.

Lemma time_left_seconds_exact (now : Z) (self : Box Q) :
  time_left_seconds now self
  == lifetime self
     - 0.001 * (inject_Z now - inject_Z (created_at_timestamp_ms self)).
Proof.
  unfold time_left_seconds, SECONDS_PR_MILLISECONDS. exact_arith.
  unfold Z.sub. rewrite inject_Z_plus, inject_Z_opp. ring.
Qed.

Lemma alive_exact_iff (now : Z) (self : Box Q) :
  alive now self = true
  <-> inject_Z now
      < inject_Z (created_at_timestamp_ms self) + 1000 * lifetime self.
Proof.
  unfold alive. exact_arith. rewrite exact_ltb_iff.
  rewrite time_left_seconds_exact. change (inject_Z 0) with 0.
  split; intros H; lra.
Qed.

(** The lifetime of a score in whole milliseconds is the lifetime that
    [lifetime_from_score] gives in exact arithmetic. *)
Lemma lifetime_ms_exact (score : Z) :
  inject_Z (lifetime_ms score) == 1000 * lifetime_from_score (F := Q) score.
Proof.
  unfold lifetime_ms. by_score score; exact_arith.
  1, 2: reflexivity.
  unfold Z.sub. rewrite inject_Z_plus, inject_Z_opp, inject_Z_mult.
  change (inject_Z 9000) with 9000. change (inject_Z 400) with 400.
  field.
Qed.

(** Evaluates a closed comparison of rationals or doubles. *)
Ltac decide_it := vm_compute; first [reflexivity | discriminate].

(** Applies a lemma on the instant of the switch with the double half a
    millisecond below the lifetime as the bound of the product and 0.0001 as
    that of the time left. *)
Ltac switch_at lemma k :=
  match goal with
  | |- (0 <? ?L - 0.001 * Binary64.of_Z k)%float = (k <? ?K)%Z =>
      apply (lemma L (L - 0.0005)%float 0.0001%float K k);
      first [assumption | decide_it]
  end.

(** In the doubles of the program, a box with the lifetime of a score is
    alive exactly during the first [lifetime_ms] milliseconds after its
    creation. *)
Lemma alive_binary64 (score : Z) (b : Box float) (now : Z) :
  lifetime b = lifetime_from_score score ->
  (Z.abs (now - created_at_timestamp_ms b) < 2 ^ 53)%Z ->
  alive now b = (now - created_at_timestamp_ms b <? lifetime_ms score)%Z.
Proof.
  intros HL Hk.
  change (alive now b)
    with (0 <? lifetime b
               - 0.001 * Binary64.of_Z (now - created_at_timestamp_ms b))%float.
  rewrite HL. set (k := (now - created_at_timestamp_ms b)%Z) in *.
  unfold lifetime_ms, lifetime_from_score.
  destruct (Z.leb_spec score 5) as [H5|H5]; [switch_at (@alive_switch) k|].
  destruct (Z.geb_spec score 20) as [H20|H20]; [switch_at (@alive_switch) k|].
  assert (M : In score [6; 7; 8; 9; 10; 11; 12; 13; 14; 15; 16; 17; 18; 19]%Z)
    by (simpl; lia).
  repeat (destruct M as [<- | M]; [switch_at (@alive_switch) k|]).
  destruct M.
Qed.

(** A lifetime between -2^20 and 2^20 seconds is a finite double. *)
Lemma lifetime_in_range (L : float) :
  (-1048576 <=? L)%float = true -> (L <=? 1048576)%float = true ->
  finite L = true /\ - 2 ^ 20 <= Fval L /\ Fval L <= 2 ^ 20.
Proof.
  intros Lo Hi.
  assert (Fa : finite (-1048576)%float = true) by reflexivity.
  assert (Fb : finite 1048576%float = true) by reflexivity.
  assert (Va : Fval (-1048576)%float == - 2 ^ 20) by (vm_compute; reflexivity).
  assert (Vb : Fval 1048576%float == 2 ^ 20) by (vm_compute; reflexivity).
  assert (FL : finite L = true) by (apply (finite_between Fa Fb Lo Hi)).
  split; [exact FL|]. rewrite <- Va, <- Vb.
  split; apply leb_val; assumption.
Qed.

(** C6.  For a fixed box: the time left strictly decreases as the clock
    advances; the box is alive exactly before the instant
    created_at + lifetime (the lifetime taken in milliseconds), so when the
    clock reads that instant the box has just turned from alive to not
    alive; and once not alive it is never alive again.

    First in exact arithmetic, for any box.  Then in the doubles of the
    program: the time left strictly decreases for any box whose lifetime is
    at most 2^20 seconds, over clock readings within 2^40 ms of its
    creation; and every box with a lifetime the game hands out (that of
    some score) turns from alive to not alive at the very millisecond exact
    arithmetic gives, over clock readings within 2^53 ms of its creation. *)
Theorem time_left_decreases_alive_flips_once :
  (forall self : Box Q,
      let expiry :=
        inject_Z (created_at_timestamp_ms self) + 1000 * lifetime self in
      (forall n1 n2 : Z,
          (n1 < n2)%Z ->
          time_left_seconds n2 self < time_left_seconds n1 self)
      /\ (forall now : Z, alive now self = true <-> inject_Z now < expiry)
      /\ (forall now : Z,
          inject_Z now == expiry ->
          alive (now - 1) self = true /\ alive now self = false)
      /\ (forall n1 n2 : Z,
          (n1 <= n2)%Z -> alive n1 self = false -> alive n2 self = false))
  /\ (forall (self : Box float) (n1 n2 : Z),
      (-1048576 <=? lifetime self)%float = true ->
      (lifetime self <=? 1048576)%float = true ->
      (n1 < n2)%Z ->
      (Z.abs (n1 - created_at_timestamp_ms self) < 2 ^ 40)%Z ->
      (Z.abs (n2 - created_at_timestamp_ms self) < 2 ^ 40)%Z ->
      (time_left_seconds n2 self <? time_left_seconds n1 self)%float = true)
  /\ (forall (score : Z) (self : Box float),
      lifetime self = lifetime_from_score score ->
      let c := created_at_timestamp_ms self in
      let expiry := inject_Z c + 1000 * lifetime_from_score (F := Q) score in
      (forall now : Z,
          (Z.abs (now - c) < 2 ^ 53)%Z ->
          (alive now self = true <-> inject_Z now < expiry))
      /\ (forall now : Z,
          inject_Z now == expiry ->
          alive (now - 1) self = true /\ alive now self = false)
      /\ (forall n1 n2 : Z,
          (n1 <= n2)%Z ->
          (Z.abs (n1 - c) < 2 ^ 53)%Z -> (Z.abs (n2 - c) < 2 ^ 53)%Z ->
          alive n1 self = false -> alive n2 self = false)).
Proof.
  split; [|split].
  - intros self expiry. split; [|split; [|split]].
    + intros n1 n2 H.
      assert (Hq : inject_Z n1 < inject_Z n2) by (rewrite <- Zlt_Qlt; lia).
      rewrite !time_left_seconds_exact. lra.
    + intros now. apply alive_exact_iff.
    + intros now H. split.
      * apply alive_exact_iff. fold expiry. rewrite <- H.
        rewrite <- Zlt_Qlt. lia.
      * apply not_true_is_false. intros A. apply alive_exact_iff in A.
        fold expiry in A. rewrite H in A. exact (Qlt_irrefl _ A).
    + intros n1 n2 H D. apply not_true_is_false. intros A.
      apply alive_exact_iff in A.
      assert (A1 : alive n1 self = true).
      { apply alive_exact_iff.
        apply Qle_lt_trans with (inject_Z n2); [|exact A].
        rewrite <- Zle_Qle. exact H. }
      congruence.
  - intros self n1 n2 Lo Hi H A1 A2.
    destruct (lifetime_in_range Lo Hi) as (FL & L0 & L1).
    change (time_left_seconds n2 self)
      with (lifetime self
            - 0.001 * Binary64.of_Z (n2 - created_at_timestamp_ms self))%float.
    change (time_left_seconds n1 self)
      with (lifetime self
            - 0.001 * Binary64.of_Z (n1 - created_at_timestamp_ms self))%float.
    apply time_left_strict_binary64; try assumption. lia.
  - intros score self HL c expiry.
    assert (E : forall now : Z,
               inject_Z now < expiry <-> (now - c < lifetime_ms score)%Z).
    { intros now. unfold expiry. rewrite <- lifetime_ms_exact.
      rewrite <- inject_Z_plus, <- Zlt_Qlt. lia. }
    assert (A : forall now : Z,
               (Z.abs (now - c) < 2 ^ 53)%Z ->
               (alive now self = true <-> inject_Z now < expiry)).
    { intros now B. rewrite (alive_binary64 score self now HL B).
      rewrite Z.ltb_lt. symmetry. apply E. }
    assert (R : (1000 <= lifetime_ms score <= 7000)%Z).
    { unfold lifetime_ms.
      destruct (Z.leb_spec score 5); [lia|].
      destruct (Z.geb_spec score 20); lia. }
    split; [exact A|split].
    + intros now H.
      assert (K : (now - c = lifetime_ms score)%Z).
      { unfold expiry in H. rewrite <- lifetime_ms_exact in H.
        rewrite <- inject_Z_plus in H. apply (proj1 (inject_Z_injective _ _)) in H. lia. }
      split.
      * apply A; [lia|]. apply E. lia.
      * apply not_true_is_false. intros X. apply A in X; [|lia].
        apply E in X. lia.
    + intros n1 n2 H B1 B2 D. apply not_true_is_false. intros X.
      apply A in X; [|exact B2]. apply E in X.
      assert (A1 : alive n1 self = true) by (apply A; [exact B1|]; apply E; lia).
      congruence.
Qed.

(* ================================================================= *)
(** ** The spawner *)

Section Spawner.
Context {F : Type} {PF : PyFloat F} {G : Generator F}.
Local Open Scope py_scope.

Lemma random_position_draws (bounds : Rect) (g : rng) :
  random_position_within_bounds bounds g
  = (lerp (of_int (right bounds)) (of_int (left bounds)) (fst (random g)),
     lerp (of_int (bottom bounds)) (of_int (top bounds))
          (fst (random (snd (random g)))),
     snd (random (snd (random g)))).
Proof.
  unfold random_position_within_bounds, bind, ret.
  destruct (random g) as [r1 g1]. simpl.
  destruct (random g1) as [r2 g2]. reflexivity.
Qed.

Lemma random_cooldown_draw (W : F) (score : Z) (g : rng) :
  random_cooldown_spawn_seconds W score g
  = (W * fst (random g) + minimum_spawn_time_seconds score, snd (random g)).
Proof.
  unfold random_cooldown_spawn_seconds, bind, ret.
  destruct (random g) as [r g1]. reflexivity.
Qed.

Lemma reset_spawn_timer_result (W : F) (now score : Z) (self : BoxSpawner F)
    (g : rng) :
  reset_spawn_timer W now score self g
  = ({| spawn_bounds := spawn_bounds self;
        timestamp_next_spawn :=
          of_int now
          + of_int 1000 * fst (random_cooldown_spawn_seconds W score g) |},
     snd (random g)).
Proof.
  unfold reset_spawn_timer, bind, ret. rewrite random_cooldown_draw.
  reflexivity.
Qed.

(** What [spawn_now] returns: a box with the lifetime of the score, created
    now at the position drawn first, and the spawner with its timer reset by
    the third draw. *)
Lemma spawn_now_result (W : F) (now score : Z) (self : BoxSpawner F)
    (g : rng) :
  let p := random_position_within_bounds (spawn_bounds self) g in
  let t := reset_spawn_timer W now score self (snd p) in
  spawn_now W now score self g
  = (box.__init__ now (lifetime_from_score score) (fst p), fst t, snd t).
Proof.
  unfold spawn_now, bind, ret.
  destruct (random_position_within_bounds (spawn_bounds self) g) as [p g1].
  simpl. destruct (reset_spawn_timer W now score self g1) as [s g2].
  reflexivity.
Qed.

(** C7.  [spawn] compares the clock with [timestamp_next_spawn].  When the
    clock has reached it, the call returns the box made by [spawn_now] (and
    the spawner and generator as [spawn_now] leaves them); otherwise it
    returns no box, the same spawner (bounds and timestamp) and the same
    generator state: nothing has changed. *)
Theorem spawn_when_due_else_nothing (W : F) (now score : Z)
    (self : BoxSpawner F) (g : rng) :
  ((timestamp_next_spawn self <=? of_int now) = true ->
     spawn W now score self g
     = (Some (fst (fst (spawn_now W now score self g))),
        snd (fst (spawn_now W now score self g)),
        snd (spawn_now W now score self g)))
  /\ ((timestamp_next_spawn self <=? of_int now) = false ->
     spawn W now score self g = (None, self, g)).
Proof.
  unfold spawn. split; intros H; rewrite H.
  - unfold bind, ret.
    destruct (spawn_now W now score self g) as [[b s] g']. reflexivity.
  - reflexivity.
Qed.
End Spawner.

(** [spawn] on the session of [one_box_game], whose next spawn is due at
    1500 ms: nothing at 1499 ms, a box of lifetime 7.0 created at 1500 ms. *)
Example spawn_not_due_then_due :
  let sp := _box_spawner (one_box_game (F := float)) in
  let g : rng (Generator := replay) := [0.25; 0.75; 0.5]%float in
  spawn (G := replay) 2.0%float 1499 0 sp g = (None, sp, g)
  /\ spawn (G := replay) 2.0%float 1500 0 sp g
     = (Some {| topleft := (550, 200)%float; lifetime := 7.0%float;
                created_at_timestamp_ms := 1500; rect := None |},
        {| spawn_bounds := spawn_bounds sp;
           timestamp_next_spawn := 3500%float |},
        []).
Proof. split; vm_compute; reflexivity. Qed.

(** At the level of the session: when no spawn is due,
    [spawn_new_box_if_possible] leaves the whole game and the generator as
    they were. *)
Lemma spawn_new_box_not_due {F : Type} {PF : PyFloat F} {G : Generator F}
    (W : F) (now : Z) (self : ButtonGame F) (g : rng) :
  (timestamp_next_spawn (_box_spawner self) <=? of_int now)%py = false ->
  spawn_new_box_if_possible W now self g = (self, g).
Proof.
  intros H. unfold spawn_new_box_if_possible, spawn, bind, ret.
  rewrite H. destruct self. reflexivity.
Qed.

(** The position and the cooldown as the program computes them, at the ends
    of the range of [random()] (0 and the largest double below 1) and in
    between, for the spawn area of an 800 by 600 window: the position stays
    within the area, and the cooldown at the scores 19 and 20 is positive. *)
Example position_and_cooldown_binary64_samples :
  let bounds :=
    {| left := 100; top := 100; width := 600; height := 400 |} in
  let draws := [0; 0.0000000000000001; 0.25; 0.5; 0.9999999999999999]%float in
  forallb (fun r =>
    let p := fst (random_position_within_bounds (G := replay) bounds [r; r]) in
    (100 <=? fst p)%float && (fst p <=? 700)%float
    && (100 <=? snd p)%float && (snd p <=? 500)%float
    && (0 <? fst (random_cooldown_spawn_seconds (G := replay) 2.0 19 [r]))%float
    && (0 <? fst (random_cooldown_spawn_seconds (G := replay) 2.0 20 [r]))%float)
    draws = true.
Proof. vm_compute. reflexivity. Qed.

(** [lerp] between two integers stays between them in the doubles of the
    program, whatever the rounding of its three operations. *)
Lemma lerp_within_binary64 (a b : Z) (r : float) :
  (a <= b)%Z -> (Z.abs a < 2 ^ 53)%Z -> (Z.abs b < 2 ^ 53)%Z ->
  (b - a < 2 ^ 53)%Z ->
  (0 <=? r)%float = true -> (r <=? 1)%float = true ->
  (Binary64.of_Z a <=? lerp (F := float) (of_int b) (of_int a) r)%float = true
  /\ (lerp (F := float) (of_int b) (of_int a) r <=? Binary64.of_Z b)%float
     = true.
Proof.
  intros Hab Ha Hb Hw H0 H1.
  destruct (draw_in_unit H0 H1) as (Fr & R0 & R1).
  destruct (@of_Z_exact a Ha) as [FA VA].
  destruct (@of_Z_exact b Hb) as [FB VB].
  destruct (@of_Z_exact (a - b) ltac:(lia)) as [FD VD].
  destruct Fval_0 as [F0 V0].
  unfold lerp. cbn [fadd fsub fmul of_int binary64].
  set (A := Binary64.of_Z a) in *. set (B := Binary64.of_Z b) in *.
  assert (Dab : inject_Z (a - b) == inject_Z a - inject_Z b)
    by (unfold Z.sub; rewrite inject_Z_plus, inject_Z_opp; ring).
  assert (Neg : inject_Z a <= inject_Z b) by (rewrite <- Zle_Qle; exact Hab).
  destruct (@sub_enclosed A B (Binary64.of_Z (a - b)) (Binary64.of_Z (a - b)))
    as (FS & S1 & S2); try assumption; try lra.
  set (D := (A - B)%float) in *.
  destruct (@mul_enclosed D r D 0%float) as (FM & M1 & M2);
    try assumption; try nra.
  set (P := (D * r)%float) in *.
  destruct (@add_enclosed B P A B) as (FX & X1 & X2); try assumption; try lra.
  split; apply leb_val; assumption.
Qed.

(** C9.  For a rectangle of non-negative width and height and two draws in
    [0, 1], the position is x = lerp(right, left, first draw) and
    y = lerp(bottom, top, second draw), in that argument order, and it lies
    within the rectangle: left <= x <= right and top <= y <= bottom.  In
    exact arithmetic, and in the doubles of the program for rectangles whose
    coordinates are below 2^53 (those a double holds exactly). *)
Theorem random_position_is_within_bounds (bounds : Rect)
    (Hw : (0 <= width bounds)%Z) (Hh : (0 <= height bounds)%Z) :
  (forall (G : Generator Q) (g : rng),
      0 <= fst (random g) /\ fst (random g) <= 1 ->
      0 <= fst (random (snd (random g)))
      /\ fst (random (snd (random g))) <= 1 ->
      let p := fst (random_position_within_bounds bounds g) in
      fst p = lerp (inject_Z (right bounds)) (inject_Z (left bounds))
                   (fst (random g))
      /\ snd p = lerp (inject_Z (bottom bounds)) (inject_Z (top bounds))
                      (fst (random (snd (random g))))
      /\ (inject_Z (left bounds) <= fst p /\ fst p <= inject_Z (right bounds))
      /\ (inject_Z (top bounds) <= snd p
          /\ snd p <= inject_Z (bottom bounds)))
  /\ (forall (G : Generator float) (g : rng),
      (Z.abs (left bounds) + width bounds < 2 ^ 53)%Z ->
      (Z.abs (top bounds) + height bounds < 2 ^ 53)%Z ->
      (0 <=? fst (random g))%float = true
      /\ (fst (random g) <=? 1)%float = true ->
      (0 <=? fst (random (snd (random g))))%float = true
      /\ (fst (random (snd (random g))) <=? 1)%float = true ->
      let p := fst (random_position_within_bounds bounds g) in
      fst p = lerp (of_int (right bounds)) (of_int (left bounds))
                   (fst (random g))
      /\ snd p = lerp (of_int (bottom bounds)) (of_int (top bounds))
                      (fst (random (snd (random g))))
      /\ ((of_int (left bounds) <=? fst p)%float = true
          /\ (fst p <=? of_int (right bounds))%float = true)
      /\ ((of_int (top bounds) <=? snd p)%float = true
          /\ (snd p <=? of_int (bottom bounds))%float = true)).
Proof.
  split.
  - intros G g H1 H2 p. subst p. rewrite random_position_draws.
    simpl fst. simpl snd.
    set (r1 := fst (random g)) in *.
    set (r2 := fst (random (snd (random g)))) in *.
    split; [reflexivity|]. split; [reflexivity|].
    unfold lerp, right, bottom. exact_arith. rewrite !inject_Z_plus.
    assert (Qw : 0 <= inject_Z (width bounds))
      by (change 0 with (inject_Z 0); rewrite <- Zle_Qle; exact Hw).
    assert (Qh : 0 <= inject_Z (height bounds))
      by (change 0 with (inject_Z 0); rewrite <- Zle_Qle; exact Hh).
    destruct H1 as [L1 U1]. destruct H2 as [L2 U2].
    pose proof (Qmult_le_0_compat _ _ Qw L1) as X1.
    assert (X2 : 0 <= inject_Z (width bounds) * (1 - r1))
      by (apply Qmult_le_0_compat; lra).
    pose proof (Qmult_le_0_compat _ _ Qh L2) as Y1.
    assert (Y2 : 0 <= inject_Z (height bounds) * (1 - r2))
      by (apply Qmult_le_0_compat; lra).
    repeat split; lra.
  - intros G g Bx By [L1 U1] [L2 U2] p. subst p.
    rewrite random_position_draws. simpl fst. simpl snd.
    split; [reflexivity|]. split; [reflexivity|].
    unfold right, bottom in *. split.
    + apply lerp_within_binary64; try assumption; lia.
    + apply lerp_within_binary64; try assumption; lia.
Qed.

Lemma lifetime_positive_binary64 (score : Z) :
  (0 <? lifetime_from_score (F := float) score)%float = true.
Proof.
  destruct (Z.leb_spec score 5) as [H5|H5].
  - unfold lifetime_from_score.
    rewrite (proj2 (Z.leb_le score 5) H5). vm_compute. auto.
  - destruct (Z.geb_spec score 20) as [H20|H20].
    + unfold lifetime_from_score.
      rewrite (proj2 (Z.leb_gt score 5) H5).
      rewrite (proj2 (Z.geb_le score 20)) by lia. vm_compute. auto.
    + each_middle_score score.
Qed.

(** In the doubles of the program the cooldown is strictly positive, for a
    spawn window of at most 1e300 seconds and a draw in [0, 1]. *)
Lemma cooldown_positive_binary64 (W r : float) (score : Z) :
  (0 <=? W)%float = true -> (W <=? 1e300)%float = true ->
  (0 <=? r)%float = true -> (r <=? 1)%float = true ->
  (0 <? W * r + minimum_spawn_time_seconds (F := float) score)%float = true.
Proof.
  intros W0 W1 H0 H1.
  destruct (draw_in_unit H0 H1) as (Fr & R0 & R1).
  destruct Fval_0 as [F0 V0].
  assert (FC : finite 1e300%float = true) by reflexivity.
  assert (FW : finite W = true) by (apply (finite_between F0 FC W0 W1)).
  assert (VW0 : 0 <= Fval W) by (rewrite <- V0; apply leb_val; assumption).
  assert (VW1 : Fval W <= Fval 1e300%float) by (apply leb_val; assumption).
  destruct (curves_bounded_binary64 score) as [_ [M0 M1]].
  set (m := minimum_spawn_time_seconds (F := float) score) in *.
  assert (Fa : finite 0.06%float = true) by reflexivity.
  assert (Fb : finite 1%float = true) by reflexivity.
  assert (Fm : finite m = true) by (apply (finite_between Fa Fb M0 M1)).
  assert (Vm0 : Fval 0.06%float <= Fval m) by (apply leb_val; assumption).
  assert (Vm1 : Fval m <= Fval 1%float) by (apply leb_val; assumption).
  assert (Pa : 0 < Fval 0.06%float) by (vm_compute; reflexivity).
  assert (Pb : Fval 1e300%float + Fval 1%float <= Fval 2e300%float)
    by (vm_compute; discriminate).
  destruct (@mul_enclosed W r 0%float W) as (FP & P1 & P2);
    try assumption; try nra.
  set (P := (W * r)%float) in *.
  assert (FG : finite 2e300%float = true) by reflexivity.
  destruct (@add_enclosed P m m 2e300%float) as (FS & S1 & S2);
    try assumption; try lra.
  apply ltb_val; [exact F0|exact FS|]. lra.
Qed.

(** In the doubles of the program the timer that a reset sets lies strictly
    after the clock reading of the reset, for a spawn window of at most
    1e300 seconds and clock readings below 2^52 ms. *)
Lemma next_spawn_later_binary64 (W r : float) (score now : Z) :
  (0 <=? W)%float = true -> (W <=? 1e300)%float = true ->
  (0 <=? r)%float = true -> (r <=? 1)%float = true ->
  (Z.abs now < 2 ^ 52)%Z ->
  (Binary64.of_Z now
   <? Binary64.of_Z now
      + Binary64.of_Z 1000
        * (W * r + minimum_spawn_time_seconds (F := float) score))%float
  = true.
Proof.
  intros W0 W1 H0 H1 Hn.
  destruct (draw_in_unit H0 H1) as (Fr & R0 & R1).
  destruct Fval_0 as [F0 V0].
  assert (FC : finite 1e300%float = true) by reflexivity.
  assert (FW : finite W = true) by (apply (finite_between F0 FC W0 W1)).
  assert (VW0 : 0 <= Fval W) by (rewrite <- V0; apply leb_val; assumption).
  assert (VW1 : Fval W <= Fval 1e300%float) by (apply leb_val; assumption).
  destruct (curves_bounded_binary64 score) as [_ [M0 M1]].
  set (m := minimum_spawn_time_seconds (F := float) score) in *.
  assert (Fa : finite 0.06%float = true) by reflexivity.
  assert (Fb : finite 1%float = true) by reflexivity.
  assert (Fm : finite m = true) by (apply (finite_between Fa Fb M0 M1)).
  assert (Vm0 : Fval 0.06%float <= Fval m) by (apply leb_val; assumption).
  assert (Vm1 : Fval m <= Fval 1%float) by (apply leb_val; assumption).
  assert (Pa : 0 < Fval 0.06%float) by (vm_compute; reflexivity).
  assert (Pb : Fval 1e300%float + Fval 1%float <= Fval 2e300%float)
    by (vm_compute; discriminate).
  destruct (@mul_enclosed W r 0%float W) as (FP & P1 & P2);
    try assumption; try nra.
  set (P := (W * r)%float) in *.
  assert (FG : finite 2e300%float = true) by reflexivity.
  destruct (@add_enclosed P m 0.06%float 2e300%float) as (FS & S1 & S2);
    try assumption; try lra.
  set (cd := (P + m)%float) in *.
  destruct (@of_Z_exact 1000 ltac:(lia)) as [Fk Vk].
  assert (F60 : finite 59%float = true) by reflexivity.
  assert (V60 : Fval 59%float == 59) by (vm_compute; reflexivity).
  assert (FT : finite 3e303%float = true) by reflexivity.
  assert (Pc : 59 <= 1000 * Fval 0.06%float) by (vm_compute; discriminate).
  assert (Pd : 1000 * Fval 2e300%float <= Fval 3e303%float)
    by (vm_compute; discriminate).
  change (inject_Z 1000) with 1000 in Vk.
  destruct (@mul_enclosed (Binary64.of_Z 1000) cd 59%float 3e303%float)
    as (FM & M2 & M3); try assumption; try (rewrite ?Vk, ?V60; lra).
  set (ms := (Binary64.of_Z 1000 * cd)%float) in *.
  destruct (@of_Z_exact now ltac:(lia)) as [Fn Vn].
  destruct (@of_Z_exact (now + 59) ltac:(lia)) as [Fn' Vn'].
  rewrite inject_Z_plus in Vn'. change (inject_Z 59) with 59 in Vn'.
  assert (FU : finite 4e303%float = true) by reflexivity.
  assert (Pe : 2 ^ 52 + Fval 3e303%float <= Fval 4e303%float)
    by (vm_compute; discriminate).
  assert (Nb : inject_Z now <= 2 ^ 52).
  { change ((2:Q) ^ 52) with (inject_Z (2 ^ 52)). rewrite <- Zle_Qle. lia. }
  destruct (@add_enclosed (Binary64.of_Z now) ms (Binary64.of_Z (now + 59))
              4e303%float) as (FX & X1 & X2);
    try assumption; try (rewrite ?Vn, ?Vn'; lra).
  apply ltb_val; [exact Fn|exact FX|]. rewrite Vn, Vn' in *. lra.
Qed.

(** C10.  For every integer score, negative ones included, the lifetime lies
    in [1.0, 7.0] and the minimum spawn time in [0.06, 1.0], as the program
    computes them and in exact arithmetic.  Consequently the box made by
    [spawn_now] has a strictly positive lifetime; and, the spawn window
    being non-negative and the draw being at least 0, the cooldown of every
    timer reset is strictly positive, so the next spawn is due strictly
    later than the reset.  The consequences are proved in exact arithmetic
    and in the doubles of the program (there for a spawn window of at most
    1e300 seconds, a draw in [0, 1] and a clock reading below 2^52 ms). *)
Theorem curves_bounded_lifetime_and_cooldown_positive
    (G : Generator Q) (W : Q) (score now : Z) (self : BoxSpawner Q)
    (g : rng)
    (HW : 0 <= W) (Hdraw : 0 <= fst (random g)) :
  ((1.0 <=? lifetime_from_score (F := float) score)%float = true
   /\ (lifetime_from_score (F := float) score <=? 7.0)%float = true)
  /\ ((0.06 <=? minimum_spawn_time_seconds (F := float) score)%float = true
      /\ (minimum_spawn_time_seconds (F := float) score <=? 1.0)%float
         = true)
  /\ (1 <= lifetime_from_score (F := Q) score
      /\ lifetime_from_score (F := Q) score <= 7)
  /\ (0.06 <= minimum_spawn_time_seconds (F := Q) score
      /\ minimum_spawn_time_seconds (F := Q) score <= 1)
  /\ (forall (G' : Generator float) (W' : float) (self' : BoxSpawner float)
             (g' : rng),
        (0 <? lifetime (fst (fst (spawn_now W' now score self' g'))))%float
        = true)
  /\ (forall (G' : Generator float) (W' : float) (self' : BoxSpawner float)
             (g' : rng),
        (0 <=? W')%float = true -> (W' <=? 1e300)%float = true ->
        (0 <=? fst (random g'))%float = true ->
        (fst (random g') <=? 1)%float = true ->
        (0 <? fst (random_cooldown_spawn_seconds W' score g'))%float = true
        /\ ((Z.abs now < 2 ^ 52)%Z ->
            (of_int now
             <? timestamp_next_spawn
                  (fst (reset_spawn_timer W' now score self' g')))%float
            = true))
  /\ 0 < lifetime (fst (fst (spawn_now W now score self g)))
  /\ 0 < fst (random_cooldown_spawn_seconds W score g)
  /\ inject_Z now
     < timestamp_next_spawn (fst (reset_spawn_timer W now score self g)).
Proof.
  destruct (curves_bounded_binary64 score) as [B1 B2].
  destruct (curves_bounded_exact score) as [E1 E2].
  assert (C : 0 < fst (random_cooldown_spawn_seconds W score g)).
  { rewrite random_cooldown_draw. simpl fst. exact_arith.
    pose proof (Qmult_le_0_compat _ _ HW Hdraw). lra. }
  repeat (split; [assumption|]).
  split; [|split; [|split; [|split]]].
  - intros G' W' self' g'. rewrite spawn_now_result. simpl.
    apply lifetime_positive_binary64.
  - intros G' W' self' g' W0 W1 R0 R1. split.
    + rewrite random_cooldown_draw. simpl fst.
      apply cooldown_positive_binary64; assumption.
    + intros Hn. rewrite reset_spawn_timer_result.
      simpl timestamp_next_spawn. rewrite random_cooldown_draw. simpl fst.
      apply next_spawn_later_binary64; assumption.
  - rewrite spawn_now_result. simpl. lra.
  - exact C.
  - rewrite reset_spawn_timer_result. simpl timestamp_next_spawn.
    exact_arith. change (inject_Z 1000) with 1000. lra.
Qed.

(* ================================================================= *)
(** ** The per-frame update *)

Section Update.
Context {F : Type} {PF : PyFloat F}.
Variable render_size : F -> Z * Z.

Lemma alive_update (now now' : Z) (b : Box F) :
  alive now (update render_size now' b) = alive now b.
Proof. reflexivity. Qed.

Lemma is_hit_by_mouse_update (now : Z) (mouse : Z * Z) (b : Box F) :
  is_hit_by_mouse mouse (update render_size now b)
  = Some (hovered render_size now mouse b).
Proof. reflexivity. Qed.

Lemma count_if_cons (p : Box F -> bool) (b : Box F) (l : list (Box F)) :
  count_if p (b :: l) = ((if p b then 1 else 0) + count_if p l)%Z.
Proof.
  unfold count_if. simpl. destruct (p b); simpl length; lia.
Qed.

Lemma count_if_nonneg (p : Box F -> bool) (l : list (Box F)) :
  (0 <= count_if p l)%Z.
Proof. unfold count_if. lia. Qed.

Lemma count_if_app (p : Box F -> bool) (l1 l2 : list (Box F)) :
  count_if p (l1 ++ l2) = (count_if p l1 + count_if p l2)%Z.
Proof.
  unfold count_if. rewrite filter_app, length_app. lia.
Qed.

(** The loop of [update_sprites] on a freshly updated group: every sprite
    that is not alive costs a life, every sprite under the pointer earns a
    point, both tests are made on every sprite, and the sprites that stay
    are those alive and not under the pointer.  No sprite misses its
    [rect]. *)
Lemma update_loop_updated (now : Z) (mouse : Z * Z) (bs : list (Box F))
    (l s : Z) :
  let t := update_loop now mouse (map (update render_size now) bs) l s in
  lives t = (l - count_if (fun b => negb (alive now b)) bs)%Z
  /\ score t = (s + count_if (hovered render_size now mouse) bs)%Z
  /\ group t
     = map (update render_size now)
           (filter (fun b => alive now b
                             && negb (hovered render_size now mouse b)) bs)
  /\ raised t = None.
Proof.
  revert l s. induction bs as [|b bs IH]; intros l s.
  - simpl. unfold count_if. simpl. repeat split; lia.
  - cbn [map update_loop]. rewrite is_hit_by_mouse_update, alive_update.
    rewrite !count_if_cons.
    set (l' := if negb (alive now b) then (l - 1)%Z else l).
    set (s' := if hovered render_size now mouse b then (s + 1)%Z else s).
    destruct (IH l' s') as (Hl & Hs & Hg & Hr).
    cbn [lives score group raised]. rewrite Hl, Hs, Hg, Hr. subst l' s'.
    cbn [filter].
    destruct (alive now b); destruct (hovered render_size now mouse b);
      cbn [negb andb orb map]; repeat split; lia.
Qed.

(** [update_sprites] in closed form. *)
Lemma update_sprites_result (now : Z) (mouse : Z * Z) (self : ButtonGame F) :
  let l := (player_lives self
            - count_if (fun b => negb (alive now b)) (boxes self))%Z in
  update_sprites render_size now mouse self
  = ({| player_score :=
          player_score self
          + count_if (hovered render_size now mouse) (boxes self);
        player_lives := l;
        boxes :=
          map (update render_size now)
              (filter (fun b => alive now b
                                && negb (hovered render_size now mouse b))
                      (boxes self));
        _box_spawner := _box_spawner self |},
     if (l <=? 0)%Z then Some GameOver else None).
Proof.
  unfold update_sprites.
  destruct (update_loop_updated now mouse (boxes self)
              (player_lives self) (player_score self)) as (Hl & Hs & Hg & Hr).
  rewrite Hl, Hs, Hg, Hr. reflexivity.
Qed.
End Update.

(** C1, as stated, fails on the program.  [first_box] has run out at
    8000 ms (7.0 - 8.0 seconds are left); at that reading, with the pointer
    on it, it is both not alive and hit.  The update takes a life and
    removes the box, and the score goes from 0 to 1 all the same: the hit
    test is a second [if], not an [elif]. *)
Lemma expired_and_hit_box_still_scores :
  let self := one_box_game (F := float) in
  let after := fst (update_sprites text_60x24 8000 (110, 110)%Z self) in
  time_left_seconds 8000 first_box = (-1.0)%float
  /\ alive 8000 first_box = false
  /\ hovered text_60x24 8000 (110, 110)%Z first_box = true
  /\ player_lives self = 3%Z
  /\ player_lives after = 2%Z
  /\ boxes after = []
  /\ player_score self = 0%Z
  /\ player_score after = 1%Z.
Proof. repeat split; vm_compute; reflexivity. Qed.

Section Tie.
Context {F : Type} {PF : PyFloat F}.
Variable render_size : F -> Z * Z.

(** C1, amended.  For every frame update and every active box that is both
    not alive at the frame's time and under the pointer, both branches of
    the loop body run for it: compared with the same update of the same
    session without that box, one more life is lost and one more point is
    scored, and the box is not in the group afterwards. *)
Theorem expired_and_hit_box_costs_a_life_and_scores
    (now : Z) (mouse : Z * Z) (self : ButtonGame F)
    (pre post : list (Box F)) (b : Box F)
    (Hboxes : boxes self = pre ++ b :: post)
    (Hexpired : alive now b = false)
    (Hhit : hovered render_size now mouse b = true) :
  let without :=
    {| player_score := player_score self;
       player_lives := player_lives self;
       boxes := pre ++ post;
       _box_spawner := _box_spawner self |} in
  let after := fst (update_sprites render_size now mouse self) in
  let after0 := fst (update_sprites render_size now mouse without) in
  player_lives after = (player_lives after0 - 1)%Z
  /\ player_score after = (player_score after0 + 1)%Z
  /\ boxes after = boxes after0
  /\ ~ In (update render_size now b) (boxes after).
Proof.
  intros without after after0. subst after after0.
  rewrite !update_sprites_result. subst without.
  cbn [fst player_lives player_score boxes]. rewrite Hboxes.
  rewrite !count_if_app, !count_if_cons, !filter_app.
  cbn [filter]. rewrite Hexpired, Hhit. cbn [negb andb].
  repeat split; try lia.
  rewrite <- filter_app. intros Hin.
  apply in_map_iff in Hin. destruct Hin as (x & Hx & Hin).
  apply filter_In in Hin. destruct Hin as [_ Hin].
  apply andb_true_iff in Hin. destruct Hin as [Hal _].
  rewrite <- (alive_update render_size now now x) in Hal.
  rewrite Hx, alive_update in Hal. congruence.
Qed.

(** The score after an update is the score before plus the number of boxes
    under the pointer; the event queue plays no part in it. *)
Lemma update_sprites_score (now : Z) (mouse : Z * Z) (self : ButtonGame F) :
  player_score (fst (update_sprites render_size now mouse self))
  = (player_score self
     + count_if (hovered render_size now mouse) (boxes self))%Z.
Proof. rewrite update_sprites_result. reflexivity. Qed.
End Tie.

(** C3 fails on the program.  In this pass of the loop the event queue holds
    no button press, only a pointer motion; the pointer rests on [first_box],
    which is alive at 1000 ms.  The pass scores a point and removes the box,
    and the session runs on. *)
Theorem hover_without_click_scores :
  let fr := {| events := [MOUSEMOTION]; ticks := 1000;
               mouse_pos := (110, 110)%Z |} in
  let self := one_box_game (F := float) in
  let r := frame (G := replay) text_60x24 2.0%float fr self [] in
  ~ In MOUSEBUTTONDOWN (events fr)
  /\ alive (ticks fr) first_box = true
  /\ hovered text_60x24 (ticks fr) (mouse_pos fr) first_box = true
  /\ player_score self = 0%Z
  /\ player_score (fst (fst r)) = 1%Z
  /\ boxes (fst (fst r)) = []
  /\ snd (fst r) = Running.
Proof.
  split.
  - simpl. intros [H | []]. discriminate H.
  - repeat split; vm_compute; reflexivity.
Qed.

(* ================================================================= *)
(** ** The session *)

Section Session.
Context {F : Type} {PF : PyFloat F} {G : Generator F}.
Variable render_size : F -> Z * Z.
Variable SPAWN_WINDOW_SIZE_SECONDS : F.
Variables SCREEN_WIDTH SCREEN_HEIGHT : Z.

Local Abbreviation frame' := (frame render_size SPAWN_WINDOW_SIZE_SECONDS).
Local Abbreviation reachable' :=
  (reachable render_size SPAWN_WINDOW_SIZE_SECONDS SCREEN_WIDTH SCREEN_HEIGHT).

(** Spawning adds at most a box; lives and score are as before. *)
Lemma spawn_new_box_keeps_tally (now : Z) (self : ButtonGame F) (g : rng) :
  let self1 :=
    fst (spawn_new_box_if_possible SPAWN_WINDOW_SIZE_SECONDS now self g) in
  player_lives self1 = player_lives self
  /\ player_score self1 = player_score self.
Proof.
  unfold spawn_new_box_if_possible, bind, ret.
  destruct (spawn SPAWN_WINDOW_SIZE_SECONDS now (player_score self)
              (_box_spawner self) g) as [[ob sp] g1].
  split; reflexivity.
Qed.

(** One pass of the loop: it returns at once when the window was closed, and
    otherwise spawns, updates, and raises [GameOver] when no life is left. *)
Lemma frame_result (fr : Frame) (self : ButtonGame F) (g : rng) :
  let s := spawn_new_box_if_possible SPAWN_WINDOW_SIZE_SECONDS (ticks fr)
             self g in
  let u := update_sprites render_size (ticks fr) (mouse_pos fr) (fst s) in
  frame' fr self g
  = if game_is_closed (events fr)
    then (self, Returned (player_score self), g)
    else (fst u,
          if (player_lives (fst u) <=? 0)%Z then Raised GameOver else Running,
          snd s).
Proof.
  unfold frame. destruct (game_is_closed (events fr)); [reflexivity|].
  unfold bind, ret.
  destruct (spawn_new_box_if_possible SPAWN_WINDOW_SIZE_SECONDS (ticks fr)
              self g) as [self1 g1].
  cbn [fst snd]. rewrite update_sprites_result. cbn [fst snd player_lives].
  destruct (_ <=? 0)%Z; reflexivity.
Qed.

(** A session that still runs has a life left and a score of at least 0. *)
Lemma reachable_has_lives (self : ButtonGame F) (g : rng) :
  reachable' self g ->
  (0 < player_lives self)%Z /\ (0 <= player_score self)%Z.
Proof.
  induction 1 as [now g | self g fr self' g' R IH Hfr].
  - unfold main.__init__, bind, ret.
    destruct (box_spawner.__init__ _ _ _ g) as [sp g1].
    destruct (spawn_now _ _ _ sp g1) as [[b sp'] g2].
    cbn. lia.
  - rewrite frame_result in Hfr.
    destruct (game_is_closed (events fr)); [discriminate Hfr|].
    pose proof (spawn_new_box_keeps_tally (ticks fr) self g) as [Kl Ks].
    revert Hfr. rewrite update_sprites_result.
    cbn [fst snd player_lives player_score].
    destruct (Z.leb_spec
                (player_lives
                   (fst (spawn_new_box_if_possible SPAWN_WINDOW_SIZE_SECONDS
                           (ticks fr) self g))
                 - count_if (fun b => negb (alive (ticks fr) b))
                     (boxes
                        (fst (spawn_new_box_if_possible
                                SPAWN_WINDOW_SIZE_SECONDS (ticks fr) self g))))
                0) as [Hle|Hgt]; intros Hfr; [discriminate Hfr|].
    injection Hfr as <- _.
    cbn [player_lives player_score]. split; [exact Hgt|].
    rewrite Ks.
    pose proof (count_if_nonneg
                  (hovered render_size (ticks fr) (mouse_pos fr))
                  (boxes
                     (fst (spawn_new_box_if_possible
                             SPAWN_WINDOW_SIZE_SECONDS (ticks fr) self g)))).
    lia.
Qed.

(** C8.  For every state a running session can reach and every pass of the
    loop from it: the session had a life left before the pass; if it still
    runs after the pass it has at least 0 lives (in fact at least 1); the
    pass raises [GameOver] exactly when the lives have come down to 0 or
    below; the score does not go down; and once a pass has ended the loop,
    no later pass is run. *)
Theorem session_invariants (self : ButtonGame F) (g : rng)
    (R : reachable' self g) (fr : Frame) :
  let r := frame' fr self g in
  let self' := fst (fst r) in
  let control := snd (fst r) in
  (0 < player_lives self)%Z
  /\ (control = Running ->
      (0 <= player_lives self')%Z /\ (0 < player_lives self')%Z)
  /\ (control = Raised GameOver <-> (player_lives self' <= 0)%Z)
  /\ (player_score self <= player_score self')%Z
  /\ (control <> Running ->
      forall later : list Frame,
        gameloop render_size SPAWN_WINDOW_SIZE_SECONDS (fr :: later) self g
        = r).
Proof.
  intros r self' control.
  destruct (reachable_has_lives R) as [Hl Hs].
  split; [exact Hl|].
  assert (Hloop : control <> Running ->
      forall later : list Frame,
        gameloop render_size SPAWN_WINDOW_SIZE_SECONDS (fr :: later) self g
        = r).
  { intros Hc later. cbn [gameloop]. unfold bind. subst control. fold r.
    destruct r as [[s c] g']. cbn [fst snd] in *.
    destruct c; [congruence | reflexivity | reflexivity]. }
  subst control self' r. revert Hloop. rewrite frame_result.
  destruct (game_is_closed (events fr)).
  - cbn [fst snd]. intros Hloop.
    split; [intros E; discriminate E|].
    split; [split; [intros E; discriminate E | lia]|].
    split; [lia | exact Hloop].
  - pose proof (spawn_new_box_keeps_tally (ticks fr) self g) as [Kl Ks].
    rewrite update_sprites_result. cbn [fst snd player_lives player_score].
    rewrite Ks.
    pose proof (count_if_nonneg
                  (hovered render_size (ticks fr) (mouse_pos fr))
                  (boxes
                     (fst (spawn_new_box_if_possible
                             SPAWN_WINDOW_SIZE_SECONDS (ticks fr) self g)))).
    destruct (Z.leb_spec
                (player_lives
                   (fst (spawn_new_box_if_possible SPAWN_WINDOW_SIZE_SECONDS
                           (ticks fr) self g))
                 - count_if (fun b => negb (alive (ticks fr) b))
                     (boxes
                        (fst (spawn_new_box_if_possible
                                SPAWN_WINDOW_SIZE_SECONDS (ticks fr) self g))))
                0) as [Hle|Hgt]; intros Hloop.
    + split; [intros E; discriminate E|].
      split; [split; [intros _; exact Hle | reflexivity]|].
      split; [lia | exact Hloop].
    + split; [intros _; lia|].
      split; [split; [intros E; discriminate E | lia]|].
      split; [lia | exact Hloop].
Qed.
End Session.

(* ================================================================= *)
(** ** The theorems above at concrete inputs *)

(** Scenario A: three lives, no hit.  The pointer stays at (0, 0), away from
    every box; the clock is read at 7000, 14000 and 21000 ms, each time as
    the oldest box runs out and the next one spawns.  The lives go 3, 2, 1,
    0 and the third pass raises [GameOver] with the score still 0. *)
Example scenario_A :
  let idle (t : Z) := {| events := []; ticks := t; mouse_pos := (0, 0)%Z |} in
  let start :=
    main.__init__ (F := float) (G := replay) 2.0%float 800%Z 600%Z 0%Z [] in
  let run frames :=
    fst (gameloop (G := replay) text_60x24 2.0%float frames
           (fst start) (snd start)) in
  (player_lives (fst start), player_score (fst start),
   length (boxes (fst start))) = (3, 0, 1%nat)%Z
  /\ (player_lives (fst (run [idle 7000%Z])), snd (run [idle 7000%Z]))
     = (2%Z, Running)
  /\ (player_lives (fst (run [idle 7000%Z; idle 14000%Z])),
      snd (run [idle 7000%Z; idle 14000%Z])) = (1%Z, Running)
  /\ (player_lives (fst (run [idle 7000%Z; idle 14000%Z; idle 21000%Z])),
      player_score (fst (run [idle 7000%Z; idle 14000%Z; idle 21000%Z])),
      snd (run [idle 7000%Z; idle 14000%Z; idle 21000%Z]))
     = (0%Z, 0%Z, Raised GameOver).
Proof. repeat split; vm_compute; reflexivity. Qed.

(** The amended C1 at the session of [one_box_game], 8000 ms, pointer on the
    box. *)
Lemma expired_and_hit_box_witness :
  let self := one_box_game (F := float) in
  let without :=
    {| player_score := player_score self;
       player_lives := player_lives self;
       boxes := [] ++ [];
       _box_spawner := _box_spawner self |} in
  let after := fst (update_sprites text_60x24 8000%Z (110, 110)%Z self) in
  let after0 :=
    fst (update_sprites text_60x24 8000%Z (110, 110)%Z without) in
  player_lives after = (player_lives after0 - 1)%Z
  /\ player_score after = (player_score after0 + 1)%Z
  /\ boxes after = boxes after0
  /\ ~ In (update text_60x24 8000%Z first_box) (boxes after).
Proof.
  apply (@expired_and_hit_box_costs_a_life_and_scores float _ text_60x24
           8000%Z (110, 110)%Z one_box_game [] [] first_box).
  - reflexivity.
  - vm_compute. reflexivity.
  - vm_compute. reflexivity.
Defined.

(** C9 at the spawn area of an 800 by 600 window, with the draws 1/4 and
    3/4, in exact arithmetic and in the doubles of the program. *)
Lemma random_position_witness :
  let bounds :=
    {| left := 100%Z; top := 100%Z; width := 600%Z; height := 400%Z |} in
  (let p :=
     fst (random_position_within_bounds (G := replay) bounds [0.25; 0.75]) in
   fst p = lerp (inject_Z 700) (inject_Z 100) 0.25
   /\ snd p = lerp (inject_Z 500) (inject_Z 100) 0.75
   /\ (inject_Z 100 <= fst p /\ fst p <= inject_Z 700)
   /\ (inject_Z 100 <= snd p /\ snd p <= inject_Z 500))
  /\ (let p :=
        fst (random_position_within_bounds (G := replay) bounds
               [0.25; 0.75]%float) in
      fst p = 550%float
      /\ snd p = 200%float
      /\ ((100 <=? fst p)%float = true /\ (fst p <=? 700)%float = true)
      /\ ((100 <=? snd p)%float = true /\ (snd p <=? 500)%float = true)).
Proof.
  intros bounds.
  destruct (@random_position_is_within_bounds bounds) as [E B].
  - simpl. lia.
  - simpl. lia.
  - split.
    + apply (E replay [0.25; 0.75]); split; vm_compute; discriminate.
    + apply (B replay [0.25; 0.75]%float).
      * simpl. lia.
      * simpl. lia.
      * split; reflexivity.
      * split; reflexivity.
Defined.

(** C10 at score 19, with a spawn window of 2 seconds and the draw 1/2. *)
Lemma curves_bounded_witness :
  let sp := _box_spawner (one_box_game (F := Q)) in
  0 < lifetime (fst (fst (spawn_now (G := replay) 2 1000%Z 19%Z sp [0.5])))
  /\ 0 < fst (random_cooldown_spawn_seconds (G := replay) 2 19%Z [0.5])
  /\ inject_Z 1000
     < timestamp_next_spawn
         (fst (reset_spawn_timer (G := replay) 2 1000%Z 19%Z sp [0.5])).
Proof.
  intros sp.
  apply (@curves_bounded_lifetime_and_cooldown_positive replay 2 19%Z
           1000%Z sp [0.5]).
  - vm_compute. discriminate.
  - vm_compute. discriminate.
Defined.

(** C8 at the first pass of a session started at 0 ms in an 800 by 600
    window. *)
Lemma session_invariants_witness :
  let start :=
    main.__init__ (F := float) (G := replay) 2.0%float 800%Z 600%Z 0%Z
      [0.5; 0.25; 0.75; 0.5]%float in
  let fr := {| events := []; ticks := 7000%Z; mouse_pos := (0, 0)%Z |} in
  let r := frame (G := replay) text_60x24 2.0%float fr (fst start)
             (snd start) in
  (0 < player_lives (fst start))%Z
  /\ (snd (fst r) = Running ->
      (0 <= player_lives (fst (fst r)))%Z
      /\ (0 < player_lives (fst (fst r)))%Z)
  /\ (snd (fst r) = Raised GameOver <-> (player_lives (fst (fst r)) <= 0)%Z)
  /\ (player_score (fst start) <= player_score (fst (fst r)))%Z
  /\ (snd (fst r) <> Running ->
      forall later : list Frame,
        gameloop (G := replay) text_60x24 2.0%float (fr :: later)
          (fst start) (snd start)
        = r).
Proof.
  exact (@session_invariants float _ replay text_60x24 2.0%float
           800%Z 600%Z _ _
           (reach_init (G := replay) text_60x24 2.0%float 800%Z 600%Z 0%Z
              [0.5; 0.25; 0.75; 0.5]%float)
           {| events := []; ticks := 7000%Z; mouse_pos := (0, 0)%Z |}).
Defined.

(* ================================================================= *)
(** ** Further properties: the update of the sprites *)

Section Updating.
Context {F : Type} {PF : PyFloat F}.
Variable render_size : F -> Z * Z.



(** X1.  [is_hit_by_mouse] needs the [rect] that only [update] sets: on a
    box fresh from its constructor it raises [AttributeError], and so does
    the loop of [update_sprites] when it meets one.  [update_sprites] itself
    updates every sprite before the loop, so it never raises
    [AttributeError], whatever the group holds, and every box it leaves in
    the group has its [rect]. *)
Theorem update_sprites_never_raises_AttributeError
    (now : Z) (mouse : Z * Z) (self : ButtonGame F) :
  snd (update_sprites render_size now mouse self) <> Some AttributeError
  /\ (forall b : Box F,
        In b (boxes (fst (update_sprites render_size now mouse self))) ->
        rect b <> None)
  /\ (forall (created : Z) (lifetime_seconds : F) (topleft : Vector2)
             (rest : list (Box F)) (l s : Z),
        is_hit_by_mouse mouse (box.__init__ created lifetime_seconds topleft)
        = None
        /\ raised (update_loop now mouse
                     (box.__init__ created lifetime_seconds topleft :: rest)
                     l s)
           = Some AttributeError).
Proof.
  rewrite update_sprites_result. cbn [fst snd boxes].
  split; [|split].
  - destruct (_ <=? 0)%Z; discriminate.
  - intros b Hin. apply in_map_iff in Hin. destruct Hin as (b0 & <- & _).
    discriminate.
  - intros created L p rest l s. split; reflexivity.
Qed.


End Updating.

(* ================================================================= *)
(** ** Further properties: the loop, [run] and [main] *)

Section Loop.
Context {F : Type} {PF : PyFloat F} {G : Generator F}.
Variable render_size : F -> Z * Z.
Variable SPAWN_WINDOW_SIZE_SECONDS : F.
Variables SCREEN_WIDTH SCREEN_HEIGHT FPS UI_FONTSIZE : Z.

Local Abbreviation frame' := (frame render_size SPAWN_WINDOW_SIZE_SECONDS).
Local Abbreviation gameloop' :=
  (gameloop render_size SPAWN_WINDOW_SIZE_SECONDS).
Local Abbreviation frame_output' :=
  (output.frame_output render_size SPAWN_WINDOW_SIZE_SECONDS FPS UI_FONTSIZE).
Local Abbreviation gameloop_output' :=
  (output.gameloop_output render_size SPAWN_WINDOW_SIZE_SECONDS FPS
     UI_FONTSIZE).
Local Abbreviation run' :=
  (output.run render_size SPAWN_WINDOW_SIZE_SECONDS FPS UI_FONTSIZE).
Local Abbreviation main' :=
  (output.main render_size SPAWN_WINDOW_SIZE_SECONDS SCREEN_WIDTH
     SCREEN_HEIGHT FPS UI_FONTSIZE).











End Loop.

(* ================================================================= *)
(** ** Further properties: the spawner *)

(** In the doubles of the program: the cooldown is a finite double, not
    below the minimum spawn time of the score, for a spawn window of at most
    1e300 seconds and a draw in [0, 1]. *)
Lemma cooldown_bounds_binary64 (W r : float) (score : Z) :
  (0 <=? W)%float = true -> (W <=? 1e300)%float = true ->
  (0 <=? r)%float = true -> (r <=? 1)%float = true ->
  let m := minimum_spawn_time_seconds (F := float) score in
  finite m = true
  /\ finite (W * r + m)%float = true
  /\ Fval m <= Fval (W * r + m)%float
  /\ Fval (W * r + m)%float <= Fval 2e300%float.
Proof.
  intros W0 W1 H0 H1 m.
  destruct (draw_in_unit H0 H1) as (Fr & R0 & R1).
  destruct Fval_0 as [F0 V0].
  assert (FC : finite 1e300%float = true) by reflexivity.
  assert (FW : finite W = true) by (apply (finite_between F0 FC W0 W1)).
  assert (VW0 : 0 <= Fval W) by (rewrite <- V0; apply leb_val; assumption).
  assert (VW1 : Fval W <= Fval 1e300%float) by (apply leb_val; assumption).
  destruct (curves_bounded_binary64 score) as [_ [M0 M1]]. fold m in M0, M1.
  assert (Fa : finite 0.06%float = true) by reflexivity.
  assert (Fb : finite 1%float = true) by reflexivity.
  assert (Fm : finite m = true) by (apply (finite_between Fa Fb M0 M1)).
  assert (Vm1 : Fval m <= Fval 1%float) by (apply leb_val; assumption).
  assert (Pb : Fval 1e300%float + Fval 1%float <= Fval 2e300%float)
    by (vm_compute; discriminate).
  destruct (@mul_enclosed W r 0%float W) as (FP & P1 & P2);
    try assumption; try nra.
  assert (FG : finite 2e300%float = true) by reflexivity.
  destruct (@add_enclosed (W * r)%float m m 2e300%float) as (FS & S1 & S2);
    try assumption; try lra.
  repeat split; assumption.
Qed.

(** In the doubles of the program the minimum spawn time is at least 60 ms,
    and a full second up to the score 5. *)
Lemma minimum_spawn_time_ms_binary64 (score : Z) :
  let m := minimum_spawn_time_seconds (F := float) score in
  60 <= 1000 * Fval m /\ ((score <= 5)%Z -> 1000 <= 1000 * Fval m).
Proof.
  intros m. subst m.
  destruct (Z.leb_spec score 5) as [H5|H5].
  - unfold minimum_spawn_time_seconds.
    rewrite (proj2 (Z.leb_le score 5) H5).
    split; [|intros _]; vm_compute; discriminate.
  - split; [|intros; lia].
    destruct (Z.geb_spec score 20) as [H20|H20].
    + unfold minimum_spawn_time_seconds.
      rewrite (proj2 (Z.leb_gt score 5) H5).
      rewrite (proj2 (Z.geb_le score 20)) by lia. vm_compute. discriminate.
    + assert (M : In score
                    [6; 7; 8; 9; 10; 11; 12; 13; 14; 15; 16; 17; 18; 19]%Z)
        by (simpl; lia).
      repeat (destruct M as [<- | M]; [vm_compute; discriminate|]).
      destruct M.
Qed.

(** In the doubles of the program the timer a reset sets is a finite
    double, at least [j] ms after the clock reading of the reset when the
    minimum spawn time is at least [j] ms. *)
Lemma timer_bounds_binary64 (W r : float) (score now j : Z) :
  (0 <=? W)%float = true -> (W <=? 1e300)%float = true ->
  (0 <=? r)%float = true -> (r <=? 1)%float = true ->
  (Z.abs now < 2 ^ 52)%Z -> (0 <= j <= 1000)%Z ->
  inject_Z j <= 1000 * Fval (minimum_spawn_time_seconds (F := float) score) ->
  let next :=
    (Binary64.of_Z now
     + Binary64.of_Z 1000
       * (W * r + minimum_spawn_time_seconds (F := float) score))%float in
  finite next = true /\ inject_Z (now + j) <= Fval next.
Proof.
  intros W0 W1 H0 H1 Hn Hj Hm next. subst next.
  destruct (cooldown_bounds_binary64 score W0 W1 H0 H1)
    as (Fm & Fcd & C1 & C2). cbv zeta in *.
  set (m := minimum_spawn_time_seconds (F := float) score) in *.
  set (cd := (W * r + m)%float) in *.
  destruct (@of_Z_exact 1000 ltac:(lia)) as [Fk Vk].
  change (inject_Z 1000) with 1000 in Vk.
  destruct (@of_Z_exact j ltac:(lia)) as [Fj Vj].
  assert (FT : finite 3e303%float = true) by reflexivity.
  assert (Pd : 1000 * Fval 2e300%float <= Fval 3e303%float)
    by (vm_compute; discriminate).
  destruct (@mul_enclosed (Binary64.of_Z 1000) cd (Binary64.of_Z j)
              3e303%float) as (FM & M2 & M3);
    try assumption; try (rewrite ?Vk, ?Vj; lra).
  set (ms := (Binary64.of_Z 1000 * cd)%float) in *.
  destruct (@of_Z_exact now ltac:(lia)) as [Fn Vn].
  destruct (@of_Z_exact (now + j) ltac:(lia)) as [Fn' Vn'].
  assert (FU : finite 4e303%float = true) by reflexivity.
  assert (Pe : 2 ^ 52 + Fval 3e303%float <= Fval 4e303%float)
    by (vm_compute; discriminate).
  assert (Nb : inject_Z now <= 2 ^ 52).
  { change ((2:Q) ^ 52) with (inject_Z (2 ^ 52)). rewrite <- Zle_Qle. lia. }
  rewrite inject_Z_plus in Vn'.
  destruct (@add_enclosed (Binary64.of_Z now) ms (Binary64.of_Z (now + j))
              4e303%float) as (FX & X1 & X2);
    try assumption; try (rewrite ?Vn, ?Vn', ?Vj in *; lra).
  split; [exact FX|]. rewrite inject_Z_plus, <- Vn'. exact X1.
Qed.

(** X8.  The cooldown is drawn from the interval that starts at the minimum
    spawn time of the score and is as long as the spawn window, as the
    docstring of [random_cooldown_spawn_seconds] says, and drawing it takes
    one number from the generator: in exact arithmetic, for a spawn window
    that is not negative and a draw in [0, 1]; in the doubles of the
    program the cooldown is never below the minimum spawn time. *)
Theorem cooldown_within_window (score : Z) :
  (forall (G : Generator Q) (W : Q) (g : rng),
      0 <= W ->
      0 <= fst (random g) /\ fst (random g) <= 1 ->
      let cooldown := random_cooldown_spawn_seconds W score g in
      minimum_spawn_time_seconds score <= fst cooldown
      /\ fst cooldown <= minimum_spawn_time_seconds score + W
      /\ snd cooldown = snd (random g))
  /\ (forall (G : Generator float) (W : float) (g : rng),
      (0 <=? W)%float = true /\ (W <=? 1e300)%float = true ->
      (0 <=? fst (random g))%float = true
      /\ (fst (random g) <=? 1)%float = true ->
      let cooldown := random_cooldown_spawn_seconds W score g in
      (minimum_spawn_time_seconds score <=? fst cooldown)%float = true
      /\ snd cooldown = snd (random g)).
Proof.
  split.
  - intros G W g HW [R0 R1] cooldown. subst cooldown.
    rewrite random_cooldown_draw. cbn [fst snd]. exact_arith.
    pose proof (Qmult_le_0_compat _ _ HW R0).
    assert (0 <= W * (1 - fst (random g)))
      by (apply Qmult_le_0_compat; lra).
    repeat split; lra.
  - intros G W g [W0 W1] [R0 R1] cooldown. subst cooldown.
    rewrite random_cooldown_draw. cbn [fst snd].
    destruct (cooldown_bounds_binary64 score W0 W1 R0 R1)
      as (Fm & Fcd & C1 & _).
    split; [|reflexivity]. apply leb_val; assumption.
Qed.

(** X8 at the score 19, with a spawn window of 2 seconds and the draw
    1/2. *)
Lemma cooldown_within_window_witness :
  (let cooldown :=
     random_cooldown_spawn_seconds (G := replay) 2 19%Z [0.5] in
   minimum_spawn_time_seconds 19%Z <= fst cooldown
   /\ fst cooldown <= minimum_spawn_time_seconds 19%Z + 2
   /\ snd cooldown = [])
  /\ (let cooldown :=
        random_cooldown_spawn_seconds (G := replay) 2%float 19%Z
          [0.5]%float in
      (minimum_spawn_time_seconds 19%Z <=? fst cooldown)%float = true
      /\ snd cooldown = []).
Proof.
  destruct (cooldown_within_window 19%Z) as [E B]. split.
  - apply (E replay 2 [0.5]); [|split]; vm_compute; discriminate.
  - apply (B replay 2%float [0.5]%float); split; reflexivity.
Defined.

(** Over exact rationals the timer a reset sets is at least [j] ms after
    the clock reading of the reset when the minimum spawn time is at least
    [j] ms. *)
Lemma timer_bounds_exact (G : Generator Q) (W : Q) (score now : Z)
    (self : BoxSpawner Q) (g : rng) (j : Q) :
  0 <= W -> 0 <= fst (random g) ->
  j <= 1000 * minimum_spawn_time_seconds (F := Q) score ->
  inject_Z now + j
  <= timestamp_next_spawn (fst (reset_spawn_timer W now score self g)).
Proof.
  intros HW Hr Hj. rewrite reset_spawn_timer_result.
  simpl timestamp_next_spawn. rewrite random_cooldown_draw. simpl fst.
  exact_arith. change (inject_Z 1000) with 1000.
  pose proof (Qmult_le_0_compat _ _ HW Hr). lra.
Qed.

(** Over exact rationals the minimum spawn time is at least 60 ms, and a
    full second up to the score 5. *)
Lemma minimum_spawn_time_ms_exact (score : Z) :
  60 <= 1000 * minimum_spawn_time_seconds (F := Q) score
  /\ ((score <= 5)%Z ->
      1000 <= 1000 * minimum_spawn_time_seconds (F := Q) score).
Proof.
  destruct (curves_bounded_exact score) as [_ [M0 _]].
  split; [lra|]. intros H5. unfold minimum_spawn_time_seconds.
  rewrite (proj2 (Z.leb_le score 5) H5). exact_arith. lra.
Qed.

(** [spawn] on a spawner whose timer lies after the clock reading. *)
Lemma spawn_before_timer_exact (G : Generator Q) (W : Q) (now score : Z)
    (self : BoxSpawner Q) (g : rng) :
  inject_Z now < timestamp_next_spawn self ->
  spawn W now score self g = (None, self, g).
Proof.
  intros H. unfold spawn. exact_arith.
  destruct (Qle_bool (timestamp_next_spawn self) (inject_Z now)) eqn:E;
    [|reflexivity].
  apply Qle_bool_iff in E. exfalso. exact (Qlt_not_le _ _ H E).
Qed.

Lemma spawn_before_timer_binary64 (G : Generator float) (W : float)
    (now score : Z) (self : BoxSpawner float) (g : rng) :
  finite (timestamp_next_spawn self) = true ->
  (Z.abs now < 2 ^ 53)%Z ->
  inject_Z now < Fval (timestamp_next_spawn self) ->
  spawn W now score self g = (None, self, g).
Proof.
  intros Fn Hn H. unfold spawn.
  cbn [fleb of_int binary64].
  destruct (@of_Z_exact now Hn) as [Fk Vk].
  destruct (timestamp_next_spawn self <=? Binary64.of_Z now)%float eqn:E;
    [|reflexivity].
  apply leb_val in E; [|exact Fn|exact Fk]. rewrite Vk in E.
  exfalso. exact (Qlt_not_le _ _ H E).
Qed.

(** X9.  After [spawn_now] (or any reset of the timer) at a clock reading,
    [spawn] returns no box, and changes nothing, at every clock reading less
    than 60 ms later; less than a full second later when the score was at
    most 5.  So two boxes are never spawned less than 60 ms apart.  In exact
    arithmetic for a spawn window that is not negative and a draw that is
    not negative; in the doubles of the program for a spawn window of at
    most 1e300 seconds, a draw in [0, 1] and clock readings below 2^52
    ms. *)
Theorem no_spawn_within_60_ms (score now : Z) :
  (forall (G : Generator Q) (W : Q) (self : BoxSpawner Q) (g : rng),
      0 <= W ->
      0 <= fst (random (snd (random (snd (random g))))) ->
      let self' := snd (fst (spawn_now W now score self g)) in
      forall (now' score' : Z) (g' : rng),
        (now' < now + 60)%Z \/ ((score <= 5)%Z /\ (now' < now + 1000)%Z) ->
        spawn W now' score' self' g' = (None, self', g'))
  /\ (forall (G : Generator float) (W : float) (self : BoxSpawner float)
             (g : rng),
      (0 <=? W)%float = true /\ (W <=? 1e300)%float = true ->
      (0 <=? fst (random (snd (random (snd (random g))))))%float = true
      /\ (fst (random (snd (random (snd (random g))))) <=? 1)%float = true ->
      (Z.abs now < 2 ^ 52)%Z ->
      let self' := snd (fst (spawn_now W now score self g)) in
      forall (now' score' : Z) (g' : rng),
        (Z.abs now' < 2 ^ 52)%Z ->
        (now' < now + 60)%Z \/ ((score <= 5)%Z /\ (now' < now + 1000)%Z) ->
        spawn W now' score' self' g' = (None, self', g')).
Proof.
  split.
  - intros G W self g HW Hr self' now' score' g' Hgap. subst self'.
    rewrite spawn_now_result. cbn [fst snd].
    rewrite random_position_draws. cbn [fst snd].
    apply spawn_before_timer_exact.
    destruct (minimum_spawn_time_ms_exact score) as [M60 M1000].
    destruct Hgap as [Hgap | [H5 Hgap]].
    + pose proof (@timer_bounds_exact G W score now self
                    (snd (random (snd (random g)))) 60 HW Hr M60) as T.
      assert (inject_Z now' < inject_Z now + 60).
      { change 60 with (inject_Z 60). rewrite <- inject_Z_plus, <- Zlt_Qlt.
        exact Hgap. }
      lra.
    + pose proof (@timer_bounds_exact G W score now self
                    (snd (random (snd (random g)))) 1000 HW Hr (M1000 H5))
        as T.
      assert (inject_Z now' < inject_Z now + 1000).
      { change 1000 with (inject_Z 1000).
        rewrite <- inject_Z_plus, <- Zlt_Qlt. exact Hgap. }
      lra.
  - intros G W self g [W0 W1] [R0 R1] Hn self' now' score' g' Hn' Hgap.
    subst self'. rewrite spawn_now_result. cbn [fst snd].
    rewrite random_position_draws. cbn [fst snd].
    rewrite reset_spawn_timer_result. cbn [fst].
    rewrite random_cooldown_draw. cbn [fst].
    destruct (minimum_spawn_time_ms_binary64 score) as [M60 M1000].
    cbv zeta in M60, M1000.
    destruct Hgap as [Hgap | [H5 Hgap]].
    + destruct (@timer_bounds_binary64 W _ score now 60 W0 W1 R0 R1 Hn
                  ltac:(lia) M60) as [Fn T].
      apply spawn_before_timer_binary64; cbn [timestamp_next_spawn];
        [exact Fn|lia|].
      assert (inject_Z now' < inject_Z (now + 60))
        by (rewrite <- Zlt_Qlt; exact Hgap).
      cbn [of_int fadd fmul binary64]. lra.
    + destruct (@timer_bounds_binary64 W _ score now 1000 W0 W1 R0 R1 Hn
                  ltac:(lia) (M1000 H5)) as [Fn T].
      apply spawn_before_timer_binary64; cbn [timestamp_next_spawn];
        [exact Fn|lia|].
      assert (inject_Z now' < inject_Z (now + 1000))
        by (rewrite <- Zlt_Qlt; exact Hgap).
      cbn [of_int fadd fmul binary64]. lra.
Qed.

(** X9 at the score 19 and the clock reading 1000 ms, with a spawn window of
    2 seconds and the draws 1/4, 3/4 and 0: no box at 1059 ms. *)
Lemma no_spawn_within_60_ms_witness :
  (let sp := _box_spawner (one_box_game (F := Q)) in
   let sp' :=
     snd (fst (spawn_now (G := replay) 2 1000%Z 19%Z sp [0.25; 0.75; 0])) in
   spawn (G := replay) 2 1059%Z 19%Z sp' [0.5] = (None, sp', [0.5]))
  /\ (let sp := _box_spawner (one_box_game (F := float)) in
      let sp' :=
        snd (fst (spawn_now (G := replay) 2%float 1000%Z 19%Z sp
                    [0.25; 0.75; 0]%float)) in
      spawn (G := replay) 2%float 1059%Z 19%Z sp' [0.5]%float
      = (None, sp', [0.5]%float)).
Proof.
  destruct (no_spawn_within_60_ms 19%Z 1000%Z) as [E B]. split.
  - intros sp sp'.
    apply (E replay 2 sp [0.25; 0.75; 0]);
      [vm_compute; discriminate | vm_compute; discriminate | left; lia].
  - intros sp sp'.
    apply (B replay 2%float sp [0.25; 0.75; 0]%float);
      [split; reflexivity | split; reflexivity | lia | lia | left; lia].
Defined.

(** X10.  The box [spawn_now] returns has no [rect] yet and was created at
    the clock reading of the call; it is alive at every clock reading less
    than 1000 ms later, whatever the score, and at no clock reading 7000 ms
    later or more.  In exact arithmetic, and in the doubles of the program
    for clock readings within 2^53 ms of the call. *)
Theorem spawned_box_lives_one_to_seven_seconds (score now : Z) :
  (forall (G : Generator Q) (W : Q) (self : BoxSpawner Q) (g : rng),
      let b := fst (fst (spawn_now W now score self g)) in
      rect b = None
      /\ created_at_timestamp_ms b = now
      /\ (forall now' : Z, (now' < now + 1000)%Z -> alive now' b = true)
      /\ (forall now' : Z, (now + 7000 <= now')%Z -> alive now' b = false))
  /\ (forall (G : Generator float) (W : float) (self : BoxSpawner float)
             (g : rng),
      let b := fst (fst (spawn_now W now score self g)) in
      rect b = None
      /\ created_at_timestamp_ms b = now
      /\ (forall now' : Z,
            (Z.abs (now' - now) < 2 ^ 53)%Z ->
            (now' < now + 1000)%Z -> alive now' b = true)
      /\ (forall now' : Z,
            (Z.abs (now' - now) < 2 ^ 53)%Z ->
            (now + 7000 <= now')%Z -> alive now' b = false)).
Proof.
  split.
  - intros G W self g b. subst b. rewrite spawn_now_result. cbn [fst].
    split; [reflexivity|]. split; [reflexivity|].
    destruct (curves_bounded_exact score) as [[L1 L7] _].
    split.
    + intros now' H. apply alive_exact_iff.
      cbn [created_at_timestamp_ms lifetime box.__init__].
      assert (inject_Z now' < inject_Z now + 1000).
      { change 1000 with (inject_Z 1000).
        rewrite <- inject_Z_plus, <- Zlt_Qlt. exact H. }
      lra.
    + intros now' H. apply not_true_is_false. intros A.
      apply alive_exact_iff in A.
      cbn [created_at_timestamp_ms lifetime box.__init__] in A.
      assert (inject_Z now + 7000 <= inject_Z now').
      { change 7000 with (inject_Z 7000).
        rewrite <- inject_Z_plus, <- Zle_Qle. exact H. }
      lra.
  - intros G W self g b. subst b. rewrite spawn_now_result. cbn [fst].
    split; [reflexivity|]. split; [reflexivity|].
    assert (R : (1000 <= lifetime_ms score <= 7000)%Z).
    { unfold lifetime_ms.
      destruct (Z.leb_spec score 5); [lia|].
      destruct (Z.geb_spec score 20); lia. }
    split.
    + intros now' B H.
      rewrite (alive_binary64 score _ now'); [|reflexivity|exact B].
      cbn [created_at_timestamp_ms box.__init__]. apply Z.ltb_lt. lia.
    + intros now' B H.
      rewrite (alive_binary64 score _ now'); [|reflexivity|exact B].
      cbn [created_at_timestamp_ms box.__init__]. apply Z.ltb_ge. lia.
Qed.

Section NewGame.
Context {F : Type} {PF : PyFloat F} {G : Generator F}.
Variable SPAWN_WINDOW_SIZE_SECONDS : F.
Variables SCREEN_WIDTH SCREEN_HEIGHT : Z.
Local Open Scope py_scope.

(** X11.  A new game: no point, three lives, and one box, made for the
    score 0 at a position drawn in the spawn area, which is the window less
    a margin of 100 pixels on every side.  The constructor takes four
    numbers from the generator: the first sets the timer in the constructor
    of the spawner and is lost, because [spawn_now] sets the timer again,
    from the fourth; the second and the third give the position of the
    box. *)
Theorem new_game_state (now : Z) (g : rng) :
  let bounds :=
    {| left := 100; top := 100;
       width := SCREEN_WIDTH - 200; height := SCREEN_HEIGHT - 200 |} in
  let g1 := snd (random g) in
  let g2 := snd (random g1) in
  let g3 := snd (random g2) in
  main.__init__ SPAWN_WINDOW_SIZE_SECONDS SCREEN_WIDTH SCREEN_HEIGHT now g
  = ({| player_score := 0;
        player_lives := 3;
        boxes :=
          [ {| topleft :=
                 (lerp (of_int (right bounds)) (of_int (left bounds))
                       (fst (random g1)),
                  lerp (of_int (bottom bounds)) (of_int (top bounds))
                       (fst (random g2)));
               lifetime := lifetime_from_score 0;
               created_at_timestamp_ms := now;
               rect := None |} ];
        _box_spawner :=
          {| spawn_bounds := bounds;
             timestamp_next_spawn :=
               of_int now
               + of_int 1000
                 * (SPAWN_WINDOW_SIZE_SECONDS * fst (random g3)
                    + minimum_spawn_time_seconds 0) |} |},
     snd (random g3)).
Proof.
  intros bounds g1 g2 g3. subst g3 g2 g1.
  unfold main.__init__, box_spawner.__init__, bind, ret.
  rewrite random_cooldown_draw. cbn [fst snd].
  rewrite spawn_now_result. cbn [fst snd spawn_bounds].
  rewrite random_position_draws. cbn [fst snd].
  rewrite reset_spawn_timer_result. cbn [fst snd spawn_bounds].
  rewrite random_cooldown_draw. cbn [fst snd].
  reflexivity.
Qed.
End NewGame.

(* ================================================================= *)
(** ** Further properties: the rectangle of a box *)





(* ================================================================= *)
(** ** Further properties: the boxes of a session *)

Section Boxes.
Context {F : Type} {PF : PyFloat F} {G : Generator F}.
Variable render_size : F -> Z * Z.
Variable SPAWN_WINDOW_SIZE_SECONDS : F.
Variables SCREEN_WIDTH SCREEN_HEIGHT : Z.

Local Abbreviation frame' := (frame render_size SPAWN_WINDOW_SIZE_SECONDS).
Local Abbreviation reachable' :=
  (reachable render_size SPAWN_WINDOW_SIZE_SECONDS SCREEN_WIDTH SCREEN_HEIGHT).

(** Spawning leaves the group as it is or adds one box at its end, made
    for the score of the game at the clock reading of the pass; the spawn
    bounds stay. *)
Lemma spawn_new_box_boxes (now : Z) (self : ButtonGame F) (g : rng) :
  let self1 :=
    fst (spawn_new_box_if_possible SPAWN_WINDOW_SIZE_SECONDS now self g) in
  (boxes self1 = boxes self
   \/ exists b : Box F,
       boxes self1 = boxes self ++ [b]
       /\ lifetime b = lifetime_from_score (player_score self)
       /\ created_at_timestamp_ms b = now)
  /\ spawn_bounds (_box_spawner self1) = spawn_bounds (_box_spawner self).
Proof.
  unfold spawn_new_box_if_possible, spawn, bind, ret.
  destruct (fleb (timestamp_next_spawn (_box_spawner self)) (of_int now)).
  - unfold bind, ret.
    pose proof (spawn_now_result SPAWN_WINDOW_SIZE_SECONDS now
                  (player_score self) (_box_spawner self) g) as R.
    cbv zeta in R.
    destruct (spawn_now SPAWN_WINDOW_SIZE_SECONDS now (player_score self)
                (_box_spawner self) g) as [[b sp] g1].
    injection R as Rb Rsp Rg. cbn [fst snd boxes _box_spawner].
    split.
    + right. exists b. split; [reflexivity|]. subst b. split; reflexivity.
    + subst sp. rewrite reset_spawn_timer_result. reflexivity.
  - cbn [fst snd boxes _box_spawner]. split; [left|]; reflexivity.
Qed.

(** The boxes of a running session were all made by the spawner, each for a
    score the game had had by then; the spawn bounds are those of the
    constructor. *)
Lemma reachable_boxes (self : ButtonGame F) (g : rng) :
  reachable' self g ->
  (forall b : Box F,
      In b (boxes self) ->
      exists s : Z,
        (0 <= s <= player_score self)%Z
        /\ lifetime b = lifetime_from_score s)
  /\ spawn_bounds (_box_spawner self)
     = {| left := 100; top := 100;
          width := SCREEN_WIDTH - 200; height := SCREEN_HEIGHT - 200 |}.
Proof.
  induction 1 as [now g | self g fr self' g' R [IHb IHs] Hfr].
  - unfold main.__init__, box_spawner.__init__, bind, ret.
    rewrite random_cooldown_draw. cbn [fst snd].
    rewrite spawn_now_result. cbn [fst snd spawn_bounds boxes player_score
                                   _box_spawner].
    rewrite reset_spawn_timer_result. cbn [fst spawn_bounds].
    split; [|reflexivity].
    intros b [<- | []]. exists 0%Z. split; [lia|reflexivity].
  - destruct (reachable_has_lives R) as [_ Hs].
    rewrite frame_result in Hfr.
    destruct (game_is_closed (events fr)); [discriminate Hfr|].
    pose proof (spawn_new_box_keeps_tally SPAWN_WINDOW_SIZE_SECONDS
                  (ticks fr) self g) as [_ Ks].
    pose proof (spawn_new_box_boxes (ticks fr) self g) as [Kb Kbounds].
    cbv zeta in Kb, Kbounds.
    set (self1 := fst (spawn_new_box_if_possible SPAWN_WINDOW_SIZE_SECONDS
                         (ticks fr) self g)) in *.
    assert (Hself' : self' = fst (update_sprites render_size (ticks fr)
                                    (mouse_pos fr) self1))
      by (injection Hfr as <- _ _; reflexivity).
    clear Hfr. subst self'. rewrite update_sprites_result.
    cbn [fst boxes player_score _box_spawner].
    split; [|rewrite Kbounds; exact IHs].
    intros b Hin. apply in_map_iff in Hin. destruct Hin as (b0 & <- & Hin).
    apply filter_In in Hin. destruct Hin as [Hin _].
    cbn [lifetime update].
    pose proof (count_if_nonneg
                  (hovered render_size (ticks fr) (mouse_pos fr))
                  (boxes self1)) as C.
    assert (Hb0 : exists s : Z,
               (0 <= s <= player_score self)%Z
               /\ lifetime b0 = lifetime_from_score s).
    { destruct Kb as [Kb | (bn & Kb & Ln & _)]; rewrite Kb in Hin.
      - apply IHb. exact Hin.
      - apply in_app_or in Hin. destruct Hin as [Hin | [<- | []]].
        + apply IHb. exact Hin.
        + exists (player_score self). split; [lia|exact Ln]. }
    destruct Hb0 as (s & Hs0 & HL). exists s. split; [|exact HL].
    rewrite Ks. lia.
Qed.

(** X13.  In every state a running session can reach, every box of the
    group was made by the spawner: its lifetime is the one
    [lifetime_from_score] gives for some score between 0 and the present
    score.  The spawn bounds never change: they are the window less a
    margin of 100 pixels on every side. *)
Theorem session_boxes_come_from_the_spawner (self : ButtonGame F) (g : rng)
    (R : reachable' self g) :
  (forall b : Box F,
      In b (boxes self) ->
      exists s : Z,
        (0 <= s <= player_score self)%Z
        /\ lifetime b = lifetime_from_score s)
  /\ spawn_bounds (_box_spawner self)
     = {| left := 100; top := 100;
          width := SCREEN_WIDTH - 200; height := SCREEN_HEIGHT - 200 |}.
Proof. exact (reachable_boxes R). Qed.
End Boxes.

(** The boxes a pass leaves in the group, when the window was not closed:
    boxes of the group before the pass, or the box spawned in the pass,
    that are alive at the clock reading of the pass. *)
Lemma boxes_after_pass {F : Type} {PF : PyFloat F} {G : Generator F}
    (render_size : F -> Z * Z) (W : F) (SW SH : Z) (self : ButtonGame F)
    (g : rng) (fr : Frame) (b : Box F) :
  reachable render_size W SW SH self g ->
  game_is_closed (events fr) = false ->
  In b (boxes (fst (fst (frame render_size W fr self g)))) ->
  exists (b0 : Box F) (s : Z),
    created_at_timestamp_ms b = created_at_timestamp_ms b0
    /\ alive (ticks fr) b0 = true
    /\ lifetime b0 = lifetime_from_score s
    /\ (In b0 (boxes self) \/ created_at_timestamp_ms b0 = ticks fr).
Proof.
  intros R Hopen Hin. rewrite frame_result, Hopen in Hin.
  cbn [fst] in Hin. rewrite update_sprites_result in Hin.
  cbn [fst boxes] in Hin.
  apply in_map_iff in Hin. destruct Hin as (b0 & <- & Hin).
  apply filter_In in Hin. destruct Hin as [Hin Hk].
  apply andb_true_iff in Hk. destruct Hk as [Ha _].
  destruct (reachable_boxes R) as [Hb _].
  pose proof (spawn_new_box_boxes W (ticks fr) self g) as [Kb _].
  cbv zeta in Kb.
  destruct Kb as [Kb | (bn & Kb & Ln & Cn)]; rewrite Kb in Hin.
  - destruct (Hb b0 Hin) as (s & _ & HL).
    exists b0, s. repeat split; try assumption. left. exact Hin.
  - apply in_app_or in Hin. destruct Hin as [Hin | [<- | []]].
    + destruct (Hb b0 Hin) as (s & _ & HL).
      exists b0, s. repeat split; try assumption. left. exact Hin.
    + exists bn, (player_score self).
      repeat split; try assumption. right. exact Cn.
Qed.

(** X14.  No box outstays its time: after every pass of a running session
    in which the window was not closed, every box of the group was created
    less than 7000 ms before the clock reading of the pass.  In exact
    arithmetic, and in the doubles of the program when the clock reading is
    within 2^53 ms of the creation of every box of the group. *)
Theorem no_box_older_than_7_seconds (SW SH : Z) (fr : Frame) :
  (forall (G : Generator Q) (render_size : Q -> Z * Z) (W : Q)
          (self : ButtonGame Q) (g : rng),
      reachable render_size W SW SH self g ->
      game_is_closed (events fr) = false ->
      forall b : Box Q,
        In b (boxes (fst (fst (frame render_size W fr self g)))) ->
        (ticks fr - created_at_timestamp_ms b < 7000)%Z)
  /\ (forall (G : Generator float) (render_size : float -> Z * Z)
             (W : float) (self : ButtonGame float) (g : rng),
      reachable render_size W SW SH self g ->
      game_is_closed (events fr) = false ->
      (forall b : Box float,
          In b (boxes self) ->
          (Z.abs (ticks fr - created_at_timestamp_ms b) < 2 ^ 53)%Z) ->
      forall b : Box float,
        In b (boxes (fst (fst (frame render_size W fr self g)))) ->
        (ticks fr - created_at_timestamp_ms b < 7000)%Z).
Proof.
  split.
  - intros G render_size W self g R Hopen b Hin.
    destruct (@boxes_after_pass _ _ _ _ _ _ _ _ _ fr b R Hopen Hin) as (b0 & s & -> & Ha & HL & _).
    apply alive_exact_iff in Ha. rewrite HL in Ha.
    destruct (curves_bounded_exact s) as [[_ L7] _].
    assert (Q : inject_Z (ticks fr)
                < inject_Z (created_at_timestamp_ms b0 + 7000)).
    { rewrite inject_Z_plus. change (inject_Z 7000) with 7000. lra. }
    rewrite <- Zlt_Qlt in Q. lia.
  - intros G render_size W self g R Hopen Hclock b Hin.
    destruct (@boxes_after_pass _ _ _ _ _ _ _ _ _ fr b R Hopen Hin)
      as (b0 & s & -> & Ha & HL & Hfrom).
    assert (B : (Z.abs (ticks fr - created_at_timestamp_ms b0) < 2 ^ 53)%Z).
    { destruct Hfrom as [Hin0 | ->]; [apply Hclock; exact Hin0|].
      rewrite Z.sub_diag. reflexivity. }
    rewrite (alive_binary64 s b0 (ticks fr) HL B) in Ha.
    apply Z.ltb_lt in Ha.
    assert (R7 : (lifetime_ms s <= 7000)%Z).
    { unfold lifetime_ms.
      destruct (Z.leb_spec s 5); [lia|].
      destruct (Z.geb_spec s 20); lia. }
    lia.
Qed.

(** X13 at the start of a session in an 800 by 600 window. *)
Lemma session_boxes_witness :
  let start :=
    main.__init__ (F := float) (G := replay) 2.0%float 800%Z 600%Z 0%Z
      [0.5; 0.25; 0.75; 0.5]%float in
  (forall b : Box float,
      In b (boxes (fst start)) ->
      exists s : Z,
        (0 <= s <= player_score (fst start))%Z
        /\ lifetime b = lifetime_from_score s)
  /\ spawn_bounds (_box_spawner (fst start))
     = {| left := 100; top := 100; width := 600; height := 400 |}.
Proof.
  exact (@session_boxes_come_from_the_spawner float _ replay text_60x24
           2.0%float 800%Z 600%Z _ _
           (reach_init (G := replay) text_60x24 2.0%float 800%Z 600%Z 0%Z
              [0.5; 0.25; 0.75; 0.5]%float)).
Defined.

(** X14 at the first pass of a session started at 0 ms in an 800 by 600
    window, the clock reading 6999 ms: the first box is still there, 6999 ms
    old; at 7000 ms it would be gone. *)
Lemma no_box_older_witness :
  let start :=
    main.__init__ (F := float) (G := replay) 2.0%float 800%Z 600%Z 0%Z
      [0.5; 0.25; 0.75; 0.5]%float in
  let fr := {| events := []; ticks := 6999%Z; mouse_pos := (0, 0)%Z |} in
  Forall (fun b : Box float => (6999 - created_at_timestamp_ms b < 7000)%Z)
    (boxes (fst (fst (frame (G := replay) text_60x24 2.0%float fr
                        (fst start) (snd start))))).
Proof.
  intros start fr. apply Forall_forall.
  apply (proj2 (no_box_older_than_7_seconds 800%Z 600%Z fr) replay
           text_60x24 2.0%float (fst start) (snd start)).
  - apply (reach_init (G := replay) text_60x24 2.0%float 800%Z 600%Z 0%Z).
  - reflexivity.
  - intros b [<- | []]. vm_compute. reflexivity.
Defined.

(** X15.  A new spawner, and a new game, spawn nothing during their first
    second: the constructor of [BoxSpawner] sets the timer for the score 0,
    whose minimum spawn time is 1.0 second, and so does the [spawn_now] of
    the constructor of the game.  So the second box of a game comes no
    sooner than one second after the first.  In exact arithmetic for a spawn
    window and a draw that are not negative; in the doubles of the program
    for a spawn window of at most 1e300 seconds, a draw in [0, 1] and clock
    readings below 2^52 ms.  (The draw is the one the timer is set from:
    the first of a new spawner, the fourth of a new game.) *)
Theorem nothing_spawns_in_the_first_second (now now' : Z)
    (Hsoon : (now' < now + 1000)%Z) :
  (forall (G : Generator Q) (W : Q) (g : rng),
      0 <= W ->
      (0 <= fst (random g) ->
       forall (bounds : Rect) (score : Z) (g' : rng),
         let sp := fst (box_spawner.__init__ W now bounds g) in
         spawn W now' score sp g' = (None, sp, g'))
      /\ (0 <= fst (random (snd (random (snd (random (snd (random g))))))) ->
          forall (SW SH : Z) (g' : rng),
            let game := fst (main.__init__ W SW SH now g) in
            spawn_new_box_if_possible W now' game g' = (game, g')))
  /\ (forall (G : Generator float) (W : float) (g : rng),
      (0 <=? W)%float = true /\ (W <=? 1e300)%float = true ->
      (Z.abs now < 2 ^ 52)%Z /\ (Z.abs now' < 2 ^ 52)%Z ->
      ((0 <=? fst (random g))%float = true
       /\ (fst (random g) <=? 1)%float = true ->
       forall (bounds : Rect) (score : Z) (g' : rng),
         let sp := fst (box_spawner.__init__ W now bounds g) in
         spawn W now' score sp g' = (None, sp, g'))
      /\ ((0 <=? fst (random (snd (random (snd (random (snd (random g)))))))
          )%float = true
          /\ (fst (random (snd (random (snd (random (snd (random g))))))) <=? 1
             )%float = true ->
          forall (SW SH : Z) (g' : rng),
            let game := fst (main.__init__ W SW SH now g) in
            spawn_new_box_if_possible W now' game g' = (game, g'))).
Proof.
  assert (Q1000 : inject_Z now' < inject_Z now + 1000).
  { change 1000 with (inject_Z 1000).
    rewrite <- inject_Z_plus, <- Zlt_Qlt. exact Hsoon. }
  split.
  - intros G W g HW.
    destruct (minimum_spawn_time_ms_exact 0) as [_ M1000].
    specialize (M1000 ltac:(lia)).
    assert (T : forall (sp : BoxSpawner Q) (g0 : rng),
               0 <= fst (random g0) ->
               inject_Z now'
               < timestamp_next_spawn
                   (fst (reset_spawn_timer W now 0 sp g0))).
    { intros sp g0 Hr.
      pose proof (@timer_bounds_exact G W 0%Z now sp g0 1000 HW Hr M1000).
      lra. }
    split.
    + intros Hr bounds score g' sp. apply spawn_before_timer_exact.
      subst sp.
      specialize (T {| spawn_bounds := bounds;
                       timestamp_next_spawn := 0 |} g Hr).
      rewrite reset_spawn_timer_result in T.
      unfold box_spawner.__init__, bind, ret.
      rewrite random_cooldown_draw. cbn [fst timestamp_next_spawn] in *.
      rewrite random_cooldown_draw in T. exact T.
    + intros Hr SW SH g' game.
      assert (S : spawn W now' (player_score game) (_box_spawner game) g'
                  = (None, _box_spawner game, g')).
      { apply spawn_before_timer_exact. subst game.
        unfold main.__init__, box_spawner.__init__, bind, ret.
        rewrite random_cooldown_draw. cbn [fst snd].
        rewrite spawn_now_result. cbn [fst snd _box_spawner spawn_bounds].
        rewrite random_position_draws. cbn [fst snd].
        apply T. exact Hr. }
      unfold spawn_new_box_if_possible, bind, ret. rewrite S.
      cbn [fst snd]. destruct game; reflexivity.
  - intros G W g [W0 W1] [Hn Hn'].
    destruct (minimum_spawn_time_ms_binary64 0) as [_ M1000].
    cbv zeta in M1000. specialize (M1000 ltac:(lia)).
    assert (T : forall (sp : BoxSpawner float) (g0 : rng),
               (0 <=? fst (random g0))%float = true
               /\ (fst (random g0) <=? 1)%float = true ->
               finite (timestamp_next_spawn
                         (fst (reset_spawn_timer W now 0 sp g0))) = true
               /\ inject_Z now'
                  < Fval (timestamp_next_spawn
                            (fst (reset_spawn_timer W now 0 sp g0)))).
    { intros sp g0 [R0 R1]. rewrite reset_spawn_timer_result.
      cbn [fst timestamp_next_spawn]. rewrite random_cooldown_draw.
      cbn [fst].
      destruct (@timer_bounds_binary64 W _ 0%Z now 1000 W0 W1 R0 R1 Hn
                  ltac:(lia) M1000) as [Fn B].
      cbn [of_int fadd fmul binary64]. split; [exact Fn|].
      rewrite inject_Z_plus in B. change (inject_Z 1000) with 1000 in B.
      lra. }
    split.
    + intros Hr bounds score g' sp.
      destruct (T {| spawn_bounds := bounds;
                     timestamp_next_spawn := 0%float |} g Hr) as [Fn B].
      rewrite reset_spawn_timer_result in Fn, B.
      cbn [fst timestamp_next_spawn] in Fn, B.
      rewrite random_cooldown_draw in Fn, B. cbn [fst] in Fn, B.
      subst sp. unfold box_spawner.__init__, bind, ret.
      rewrite random_cooldown_draw. cbn [fst].
      apply spawn_before_timer_binary64; cbn [timestamp_next_spawn];
        [exact Fn|lia|exact B].
    + intros Hr SW SH g' game.
      assert (S : spawn W now' (player_score game) (_box_spawner game) g'
                  = (None, _box_spawner game, g')).
      { subst game.
        unfold main.__init__, box_spawner.__init__, bind, ret.
        rewrite random_cooldown_draw. cbn [fst snd].
        rewrite spawn_now_result.
        cbn [fst snd _box_spawner player_score spawn_bounds].
        rewrite random_position_draws. cbn [fst snd].
        match goal with
        | |- spawn _ _ _ (fst (reset_spawn_timer _ _ _ ?sp ?g0)) _ = _ =>
            destruct (T sp g0 Hr) as [Fn B]
        end.
        apply spawn_before_timer_binary64; [exact Fn|lia|exact B]. }
      unfold spawn_new_box_if_possible, bind, ret. rewrite S.
      cbn [fst snd]. destruct game; reflexivity.
Qed.

(** X15 at a game started at 0 ms in an 800 by 600 window: nothing spawns
    at 999 ms. *)
Lemma nothing_spawns_witness :
  let game :=
    fst (main.__init__ (F := float) (G := replay) 2.0%float 800%Z 600%Z 0%Z
           [0.5; 0.25; 0.75; 0.5]%float) in
  spawn_new_box_if_possible (G := replay) 2.0%float 999%Z game []
  = (game, []).
Proof.
  intros game.
  apply (proj2 (proj2 (@nothing_spawns_in_the_first_second 0%Z 999%Z
                         ltac:(lia))
                  replay 2.0%float [0.5; 0.25; 0.75; 0.5]%float
                  (conj eq_refl eq_refl) ltac:(split; lia))).
  split; reflexivity.
Defined.

(* ================================================================= *)
(** ** Further properties: the background of the image *)

Import image.

(** X16.  The weight [generate_text] hands to [Color.lerp] is always one it
    accepts, so the call never raises [ValueError], as the comment in the
    source says: whatever the time left is, negative (a box that has run
    out is still updated once) or beyond the maximum lifetime.  Only a
    maximum lifetime of zero stops [generate_text], with
    [ZeroDivisionError].  In exact arithmetic, where the weight is the
    quotient brought into [0, 1]; and in the doubles of the program,
    whatever the two doubles are. *)
Theorem background_weight_is_accepted :
  (forall MAXIMUM_LIFETIME_SECONDS time : Q,
      (MAXIMUM_LIFETIME_SECONDS == 0 ->
       image.normalized_time MAXIMUM_LIFETIME_SECONDS time = None)
      /\ (~ MAXIMUM_LIFETIME_SECONDS == 0 ->
          exists w : Q,
            image.normalized_time MAXIMUM_LIFETIME_SECONDS time = Some w
            /\ image.lerp_accepts w = true
            /\ 0 <= w /\ w <= 1
            /\ (0 <= time / MAXIMUM_LIFETIME_SECONDS <= 1 ->
                w = time / MAXIMUM_LIFETIME_SECONDS)))
  /\ (forall MAXIMUM_LIFETIME_SECONDS time : float,
      ((MAXIMUM_LIFETIME_SECONDS =? 0)%float = true ->
       image.normalized_time MAXIMUM_LIFETIME_SECONDS time = None)
      /\ ((MAXIMUM_LIFETIME_SECONDS =? 0)%float = false ->
          exists w : float,
            image.normalized_time MAXIMUM_LIFETIME_SECONDS time = Some w
            /\ image.lerp_accepts w = true)).
Proof.
  split.
  - intros M t. unfold image.normalized_time, image.fdiv,
      image.exact_division. split.
    + intros H. apply Qeq_bool_iff in H. rewrite H. reflexivity.
    + intros H. destruct (Qeq_bool M 0) eqn:E;
        [apply Qeq_bool_iff in E; contradiction|].
      cbn [option_map]. eexists. split; [reflexivity|].
      unfold image.clamp, image.lerp_accepts. exact_arith.
      change (inject_Z 0) with 0. change (inject_Z 1) with 1.
      set (q := t / M).
      destruct (Exact.ltb q 0) eqn:E0.
      * apply exact_ltb_iff in E0.
        split; [reflexivity|]. split; [lra|]. split; [lra|].
        intros [A _]. exfalso. lra.
      * destruct (Exact.ltb 1 q) eqn:E1.
        -- apply exact_ltb_iff in E1.
           split; [reflexivity|]. split; [lra|]. split; [lra|].
           intros [_ A]. exfalso. lra.
        -- rewrite E0, E1. apply exact_ltb_false_iff in E0, E1.
           split; [reflexivity|]. split; [lra|]. split; [lra|].
           reflexivity.
  - intros M t. unfold image.normalized_time, image.fdiv,
      image.binary64_division. split.
    + intros ->. reflexivity.
    + intros ->. cbn [option_map]. eexists. split; [reflexivity|].
      unfold image.clamp, image.lerp_accepts.
      cbn [fltb of_int binary64].
      change (Binary64.of_Z 0) with 0%float.
      change (Binary64.of_Z 1) with 1%float.
      destruct (t / M <? 0)%float eqn:E0; [reflexivity|].
      destruct (1 <? t / M)%float eqn:E1; [reflexivity|].
      rewrite E0, E1. reflexivity.
Qed.

(* ================================================================= *)
(** ** Further properties: the difficulty curves *)

(** Both curves only depend on the score brought into [5, 20]. *)
Lemma curves_clamped {F : Type} {PF : PyFloat F} (score : Z) :
  lifetime_from_score (F := F) score
  = lifetime_from_score (Z.max 5 (Z.min 20 score))
  /\ minimum_spawn_time_seconds (F := F) score
     = minimum_spawn_time_seconds (Z.max 5 (Z.min 20 score)).
Proof.
  unfold lifetime_from_score, minimum_spawn_time_seconds.
  destruct (Z.leb_spec score 5) as [H5|H5].
  - replace (Z.max 5 (Z.min 20 score)) with 5%Z by lia. split; reflexivity.
  - destruct (Z.geb_spec score 20) as [H20|H20].
    + replace (Z.max 5 (Z.min 20 score)) with 20%Z by lia.
      split; reflexivity.
    + replace (Z.max 5 (Z.min 20 score)) with score by lia.
      rewrite (proj2 (Z.leb_gt score 5) H5).
      destruct (Z.geb_spec score 20); [lia|]. split; reflexivity.
Qed.

(** The doubles of both curves at the scores 5 to 20, compared pair by
    pair. *)
Lemma curves_binary64_pairs :
  let scores := map Z.of_nat (seq 5 16) in
  forallb (fun a =>
    forallb (fun b =>
      negb (a <=? b)%Z
      || ((lifetime_from_score (F := float) b
           <=? lifetime_from_score (F := float) a)%float
          && (negb ((b <? 20) || (20 <=? a))%Z
              || (minimum_spawn_time_seconds (F := float) b
                  <=? minimum_spawn_time_seconds (F := float) a)%float)))
      scores) scores
  = true.
Proof. vm_compute. reflexivity. Qed.

(** X17.  The lifetime of the boxes never rises with the score, as the
    docstring of [lifetime_from_score] says; the minimum spawn time never
    rises either as long as the two scores lie on the same side of 20 (at 20
    it jumps up from 0.06 to 0.1).  In exact arithmetic and in the doubles
    of the program. *)
Theorem lifetime_never_rises_with_score (s1 s2 : Z) (H : (s1 <= s2)%Z) :
  (lifetime_from_score (F := Q) s2 <= lifetime_from_score (F := Q) s1
   /\ (lifetime_from_score (F := float) s2
       <=? lifetime_from_score (F := float) s1)%float = true)
  /\ ((s2 < 20 \/ 20 <= s1)%Z ->
      minimum_spawn_time_seconds (F := Q) s2
      <= minimum_spawn_time_seconds (F := Q) s1
      /\ (minimum_spawn_time_seconds (F := float) s2
          <=? minimum_spawn_time_seconds (F := float) s1)%float = true).
Proof.
  assert (P : forall a b : Z,
             (5 <= a <= 20)%Z -> (5 <= b <= 20)%Z -> (a <= b)%Z ->
             (lifetime_from_score (F := float) b
              <=? lifetime_from_score (F := float) a)%float = true
             /\ ((b < 20 \/ 20 <= a)%Z ->
                 (minimum_spawn_time_seconds (F := float) b
                  <=? minimum_spawn_time_seconds (F := float) a)%float
                 = true)).
  { intros a b Ha Hb Hab.
    pose proof curves_binary64_pairs as T. cbv zeta in T.
    assert (I : forall x : Z,
               (5 <= x <= 20)%Z -> In x (map Z.of_nat (seq 5 16))).
    { intros x Hx. apply in_map_iff. exists (Z.to_nat x).
      split; [lia|]. apply in_seq. lia. }
    rewrite forallb_forall in T. specialize (T a (I a Ha)).
    rewrite forallb_forall in T. specialize (T b (I b Hb)).
    rewrite (proj2 (Z.leb_le a b) Hab) in T. cbn [negb orb] in T.
    apply andb_true_iff in T. destruct T as [T1 T2].
    split; [exact T1|]. intros Hside.
    assert (S : ((b <? 20) || (20 <=? a))%Z = true).
    { apply orb_true_iff.
      destruct Hside; [left; apply Z.ltb_lt|right; apply Z.leb_le];
        assumption. }
    rewrite S in T2. exact T2. }
  destruct (@curves_clamped float _ s1) as [L1 M1].
  destruct (@curves_clamped float _ s2) as [L2 M2].
  destruct (P (Z.max 5 (Z.min 20 s1)) (Z.max 5 (Z.min 20 s2))
              ltac:(lia) ltac:(lia) ltac:(lia)) as [PL PM].
  split; [split|].
  - destruct (Z.eq_dec s1 s2) as [->|Hne]; [apply Qle_refl|].
    apply lifetime_from_score_monotone. lia.
  - rewrite L1, L2. exact PL.
  - intros Hside. split.
    + destruct (Z.eq_dec s1 s2) as [->|Hne]; [apply Qle_refl|].
      apply minimum_spawn_time_monotone_apart_from_20; [lia|exact Hside].
    + rewrite M1, M2. apply PM. lia.
Qed.

(** X17 at the scores 6 and 19. *)
Lemma lifetime_never_rises_witness :
  (lifetime_from_score (F := Q) 19 <= lifetime_from_score (F := Q) 6
   /\ (lifetime_from_score (F := float) 19
       <=? lifetime_from_score (F := float) 6)%float = true)
  /\ ((19 < 20 \/ 20 <= 6)%Z ->
      minimum_spawn_time_seconds (F := Q) 19
      <= minimum_spawn_time_seconds (F := Q) 6
      /\ (minimum_spawn_time_seconds (F := float) 19
          <=? minimum_spawn_time_seconds (F := float) 6)%float = true).
Proof.
  apply (@lifetime_never_rises_with_score 6%Z 19%Z). lia.
Defined.

